(** * electron-reload: reset dispatch, surface registry and process respawn

    A shallow embedding of [src/main.ts] and the properties of its
    three collaborating parts: the list of live browser windows, the two
    chokidar subscriptions (soft and hard reset) and the hard-reset handler
    that respawns the Electron process.

    The host runtime (Electron), the watch service (chokidar), [fs] and
    [child_process] are external; they appear here through the interface the
    module consumes: a call on one of them is an entry of the [call] trace,
    an event coming from one of them is an [event] fed to [step]. *)

From Stdlib Require Import List String Ascii Bool Arith ZArith Lia.
Import ListNotations.

Local Open Scope string_scope.
Local Open Scope list_scope.

(** ** JavaScript values the module relies on *)

(** An own property of an options object: the key can be missing, present
    with the value [undefined], or present with a value.  [Object.assign]
    tells the first two apart, reading the property does not. *)
Inductive prop (A : Type) : Type :=
| Absent
| Undefined
| Value (a : A).
Arguments Absent {A}.
Arguments Undefined {A}.
Arguments Value {A} a.

(** [o.key]: a missing key reads as [undefined] ([None]). *)
Definition read {A : Type} (p : prop A) : option A :=
  match p with
  | Value a => Some a
  | Absent | Undefined => None
  end.

(** [x ?? y] where [y] may itself be [undefined]. *)
Definition coalesce {A : Type} (x y : option A) : option A :=
  match x with
  | Some a => Some a
  | None => y
  end.

(** [x ?? d] with a defined right-hand side. *)
Definition coalesce_or {A : Type} (x : option A) (d : A) : A :=
  match x with
  | Some a => a
  | None => d
  end.

Notation "x ?? d" := (coalesce_or x d) (at level 45, left associativity).

(** [typeof x === 'string'] for a value that is a string or [undefined]. *)
Definition typeof_is_string (x : option string) : bool :=
  match x with
  | Some _ => true
  | None => false
  end.

(** [x === s] for a string-or-undefined [x] and a string literal [s]. *)
Definition strict_eq_string (x : option string) (s : string) : bool :=
  match x with
  | Some v => String.eqb v s
  | None => false
  end.

(** [x === true] for a boolean-or-undefined [x]. *)
Definition strict_eq_true (x : option bool) : bool :=
  match x with
  | Some b => b
  | None => false
  end.

(** [Array.prototype.indexOf]: index of the first element identical to [x],
    [-1] when there is none. *)
Fixpoint indexOf (l : list nat) (x : nat) : Z :=
  match l with
  | [] => (-1)%Z
  | y :: r =>
      if Nat.eqb y x then 0%Z
      else let i := indexOf r x in
           if (i <? 0)%Z then (-1)%Z else (i + 1)%Z
  end.

(** [Array.prototype.splice(start, deleteCount)] without inserted items: a
    negative [start] counts from the end of the array, and both numbers are
    clamped to the array. *)
Definition splice {A : Type} (l : list A) (start deleteCount : Z) : list A :=
  let len := Z.of_nat (List.length l) in
  let s := if (start <? 0)%Z then Z.max (len + start) 0 else Z.min start len in
  let d := Z.min (Z.max deleteCount 0) (len - s) in
  firstn (Z.to_nat s) l ++ skipn (Z.to_nat (s + d)) l.

(** ** Calls on the external collaborators *)

Definition BrowserWindow := nat.

Inductive Stdio := stdio_pipe | stdio_inherit | stdio_ignore.

Record SpawnOptions := { detached : bool; stdio : Stdio }.

(** The handle [child_process.spawn] returns. *)
Record ChildProcess := {
  spawnfile : string;
  spawnargs : list string;
  spawnopts : SpawnOptions
}.

Inductive call :=
| Spawn (command : string) (args : list string) (options : SpawnOptions)
| Unref (child : ChildProcess)
| AppExit
| AppQuit
| ReloadIgnoringCache (bw : BrowserWindow)
| ConsoleLog (msg : string).

(** Code that only talks to the outside: a result and the calls made, in
    order. *)
Definition IO (A : Type) : Type := (A * list call)%type.

Definition ret {A : Type} (a : A) : IO A := (a, []).

Definition bind {A B : Type} (m : IO A) (k : A -> IO B) : IO B :=
  let (a, t1) := m in
  let (b, t2) := k a in
  (b, t1 ++ t2).

Definition result {A : Type} (m : IO A) : A := fst m.
Definition calls {A : Type} (m : IO A) : list call := snd m.

Notation "x <- m ;; k" := (bind m (fun x => k))
  (at level 100, m at next level, right associativity).
Notation "m ;;; k" := (bind m (fun _ => k))
  (at level 100, right associativity).

(** [child_process.spawn]: the call and the handle of the child.  Node
    reports a launch that fails on the child, after [spawn] has returned;
    the module installs no listener for that. *)
Definition spawn (command : string) (args : list string) (o : SpawnOptions)
  : IO ChildProcess :=
  ({| spawnfile := command; spawnargs := args; spawnopts := o |},
   [Spawn command args o]).

Definition unref (child : ChildProcess) : IO unit := (tt, [Unref child]).
Definition app_exit : IO unit := (tt, [AppExit]).
Definition app_quit : IO unit := (tt, [AppQuit]).
Definition reloadIgnoringCache (bw : BrowserWindow) : IO unit :=
  (tt, [ReloadIgnoringCache bw]).
Definition console_log (msg : string) : IO unit := (tt, [ConsoleLog msg]).

(** [Array.prototype.forEach]. *)
Fixpoint forEach {A : Type} (l : list A) (f : A -> IO unit) : IO unit :=
  match l with
  | [] => ret tt
  | a :: r => f a ;;; forEach r f
  end.

(** ** Configuration *)

(** What chokidar's [ignored] holds: regular expressions (by source text)
    and path or glob strings. *)
Inductive matcher :=
| MRegExp (source : string)
| MString (s : string).

(** [glob: string | string[]]. *)
Inductive Glob :=
| GlobOne (p : string)
| GlobMany (ps : list string).

Definition arrify (g : Glob) : list string :=
  match g with
  | GlobOne p => [p]
  | GlobMany ps => ps
  end.

(** The [options] argument: chokidar's [ignored] and the module's own
    keys.  The other chokidar options pass through untouched and no
    line of the module reads them. *)
Record Options := {
  ignored : prop (list matcher);
  hardResetMethod : prop string;
  argv : prop (list string);
  forceHardReset : prop bool;
  electron : prop string;
  mainFile : prop string
}.

Definition no_options : Options :=
  {| ignored := Absent; hardResetMethod := Absent; argv := Absent;
     forceHardReset := Absent; electron := Absent; mainFile := Absent |}.

(** [Object.assign({ ignored: dflt }, options)]: every own key of [options]
    overwrites the target's, [ignored] included, also when its value is
    [undefined]. *)
Definition Object_assign_ignored (dflt : list matcher) (options : Options)
  : Options :=
  {| ignored := match ignored options with
                | Absent => Value dflt
                | own => own
                end;
     hardResetMethod := hardResetMethod options;
     argv := argv options;
     forceHardReset := forceHardReset options;
     electron := electron options;
     mainFile := mainFile options |}.

(** [const ignoredPaths = /node_modules|[/\\]\./] *)
Definition ignoredPaths : matcher := MRegExp "node_modules|[/\\]\.".

Definition is_separator (c : ascii) : bool :=
  (Ascii.eqb c "/" || Ascii.eqb c "\")%char.

(** [ignoredPaths.test(path)]: the path contains [node_modules], or a
    slash or backslash followed by a dot. *)
Fixpoint ignoredPaths_test (path : string) : bool :=
  match path with
  | EmptyString => false
  | String c rest =>
      String.prefix "node_modules" path
      || (is_separator c && String.prefix "." rest)
      || ignoredPaths_test rest
  end.

(** [module.parent]: the module that required this one, if any. *)
Record NodeModule := { filename : string }.

(** ** The watch service *)

Inductive listener :=
| SoftResetHandler
| HardResetHandler (eXecutable : string) (method : prop string)
                   (args : prop (list string)).

(** A chokidar subscription: the watched patterns, the options it was
    opened with, and its ['change'] listeners, each with its [once] flag. *)
Record FSWatcher := {
  watched : list string;
  woptions : Options;
  closed : bool;
  listeners : list (bool * listener)
}.

Definition chokidar_watch (paths : Glob) (o : Options) : FSWatcher :=
  {| watched := arrify paths; woptions := o; closed := false;
     listeners := [] |}.

Definition watcher_add (w : FSWatcher) (paths : Glob) : FSWatcher :=
  {| watched := watched w ++ arrify paths; woptions := woptions w;
     closed := closed w; listeners := listeners w |}.

(** [close()] stops the subscription and removes all its listeners. *)
Definition watcher_close (w : FSWatcher) : FSWatcher :=
  {| watched := watched w; woptions := woptions w; closed := true;
     listeners := [] |}.

Definition watcher_on (w : FSWatcher) (l : listener) : FSWatcher :=
  {| watched := watched w; woptions := woptions w; closed := closed w;
     listeners := listeners w ++ [(false, l)] |}.

Definition watcher_once (w : FSWatcher) (l : listener) : FSWatcher :=
  {| watched := watched w; woptions := woptions w; closed := closed w;
     listeners := listeners w ++ [(true, l)] |}.

(** Emitting ['change']: the listeners to call, in registration order, and
    the subscription without its one-shot listeners.  A closed subscription
    emits nothing. *)
Definition watcher_emit (w : FSWatcher) : FSWatcher * list listener :=
  if closed w then (w, [])
  else ({| watched := watched w; woptions := woptions w; closed := closed w;
           listeners := filter (fun l => negb (fst l)) (listeners w) |},
        map snd (listeners w)).

(** The ignore set a subscription was opened with. *)
Definition ignore_set (w : FSWatcher) : list matcher :=
  read (ignored (woptions w)) ?? [].

(** ** The module *)

Inductive subscription := SoftSub | HardSub.

Inductive event :=
| BrowserWindowCreated (bw : BrowserWindow)
| WindowClosed (bw : BrowserWindow)
| Change (s : subscription) (path : string).

(** What the default export leaves behind: the [browserWindows] array, the
    ['closed'] listeners it attached (one entry per listener, named by its
    window), and the two subscriptions. *)
Record Runtime := {
  browserWindows : list BrowserWindow;
  closedListeners : list BrowserWindow;
  watcher : FSWatcher;
  hardWatcher : option FSWatcher
}.

Definition no_hard_reset_message : string :=
  "Electron could not be found. No hard resets for you!".

Section Main.

(** [app.getAppPath()], read once when the module loads. *)
Variable appPath : string.
(** [fs.existsSync] on the file system as it is at startup. *)
Variable existsSync : string -> bool.
(** [module.parent] *)
Variable module_parent : option NodeModule.

Definition createHardresetHandler (eXecutable : string)
    (hardResetMethod : prop string) (argv : prop (list string)) : IO unit :=
  let args := (read argv ?? []) ++ [appPath] in
  child <- spawn eXecutable args
             {| detached := true; stdio := stdio_inherit |} ;;
  unref child ;;;
  if strict_eq_string (read hardResetMethod) "exit"
  then app_exit
  else app_quit.

(** [browserWindows.forEach(bw => bw.webContents.reloadIgnoringCache())] *)
Definition softResetHandler (browserWindows : list BrowserWindow) : IO unit :=
  forEach browserWindows (fun bw => reloadIgnoringCache bw).

(** [options.mainFile ?? module.parent?.filename ?? ''] *)
Definition resolve_mainFile (options : Options) : string :=
  coalesce (read (mainFile options)) (option_map filename module_parent)
    ?? "".

(** [typeof eXecutable === 'string' && fs.existsSync(eXecutable)] *)
Definition hard_reset_eligible (options : Options) : bool :=
  let eXecutable := read (electron options) in
  typeof_is_string eXecutable &&
  match eXecutable with
  | Some path => existsSync path
  | None => false
  end.

(** The default export. *)
Definition electron_reload (glob : Glob) (options : Options) : IO Runtime :=
  let mainFile := resolve_mainFile options in
  let browserWindows : list BrowserWindow := [] in
  let watcher :=
    chokidar_watch glob
      (Object_assign_ignored [ignoredPaths; MString mainFile] options) in
  let eXecutable := read (electron options) in
  let hardResetHandler :=
    HardResetHandler (eXecutable ?? "") (hardResetMethod options)
      (argv options) in
  let watcher := watcher_on watcher SoftResetHandler in
  if hard_reset_eligible options then
    let hardWatcher :=
      chokidar_watch (GlobOne mainFile)
        (Object_assign_ignored [ignoredPaths] options) in
    let '(hardWatcher, watcher) :=
      if strict_eq_true (read (forceHardReset options))
      then (watcher_add hardWatcher glob, watcher_close watcher)
      else (hardWatcher, watcher) in
    let hardWatcher := watcher_once hardWatcher hardResetHandler in
    ret {| browserWindows := browserWindows; closedListeners := [];
           watcher := watcher; hardWatcher := Some hardWatcher |}
  else
    console_log no_hard_reset_message ;;;
    ret {| browserWindows := browserWindows; closedListeners := [];
           watcher := watcher; hardWatcher := None |}.

(** The ['browser-window-created'] listener. *)
Definition on_browser_window_created (rt : Runtime) (bw : BrowserWindow)
  : Runtime :=
  {| browserWindows := browserWindows rt ++ [bw];
     closedListeners := closedListeners rt ++ [bw];
     watcher := watcher rt; hardWatcher := hardWatcher rt |}.

(** The ['closed'] listener attached to [bw]. *)
Definition on_closed (bw : BrowserWindow) (windows : list BrowserWindow)
  : list BrowserWindow :=
  let i := indexOf windows bw in
  splice windows i 1.

(** [bw] emits ['closed']: every listener attached to it runs. *)
Definition emit_closed (rt : Runtime) (bw : BrowserWindow) : Runtime :=
  {| browserWindows :=
       Nat.iter (count_occ Nat.eq_dec (closedListeners rt) bw)
         (on_closed bw) (browserWindows rt);
     closedListeners := closedListeners rt;
     watcher := watcher rt; hardWatcher := hardWatcher rt |}.

Definition invoke (rt : Runtime) (l : listener) : IO unit :=
  match l with
  | SoftResetHandler => softResetHandler (browserWindows rt)
  | HardResetHandler e m a => createHardresetHandler e m a
  end.

(** One event from the host runtime or from the watch service. *)
Definition step (rt : Runtime) (e : event) : IO Runtime :=
  match e with
  | BrowserWindowCreated bw => ret (on_browser_window_created rt bw)
  | WindowClosed bw => ret (emit_closed rt bw)
  | Change SoftSub _ =>
      let (w, ls) := watcher_emit (watcher rt) in
      forEach ls (invoke rt) ;;;
      ret {| browserWindows := browserWindows rt;
             closedListeners := closedListeners rt;
             watcher := w; hardWatcher := hardWatcher rt |}
  | Change HardSub _ =>
      match hardWatcher rt with
      | None => ret rt
      | Some hw =>
          let (w, ls) := watcher_emit hw in
          forEach ls (invoke rt) ;;;
          ret {| browserWindows := browserWindows rt;
                 closedListeners := closedListeners rt;
                 watcher := watcher rt; hardWatcher := Some w |}
      end
  end.

(** Events in the order they are delivered.  Events keep being handled
    after [app.quit()] or [app.exit()] has been called: a process that
    really stops lives through a prefix of what is described here. *)
Fixpoint run (rt : Runtime) (evs : list event) : IO Runtime :=
  match evs with
  | [] => ret rt
  | e :: r => rt' <- step rt e ;; run rt' r
  end.

(** Startup followed by a sequence of events. *)
Definition session (glob : Glob) (options : Options) (evs : list event)
  : IO Runtime :=
  rt <- electron_reload glob options ;; run rt evs.

End Main.

(** ** Observations on call traces *)

Definition is_spawn (c : call) : bool :=
  match c with
  | Spawn _ _ _ => true
  | _ => false
  end.

(** Calls the hard-reset handler makes. *)
Definition is_respawn (c : call) : bool :=
  match c with
  | Spawn _ _ _ | Unref _ | AppExit | AppQuit => true
  | ReloadIgnoringCache _ | ConsoleLog _ => false
  end.

Definition is_reload (c : call) : bool :=
  match c with
  | ReloadIgnoringCache _ => true
  | _ => false
  end.

Definition spawn_count (t : list call) : nat := List.length (filter is_spawn t).

Definition respawn_free (t : list call) : Prop :=
  Forall (fun c => is_respawn c = false) t.

Definition reload_free (t : list call) : Prop :=
  Forall (fun c => is_reload c = false) t.

(** How many times [bw] is asked to reload in a trace. *)
Fixpoint reloads_of (bw : BrowserWindow) (t : list call) : nat :=
  match t with
  | [] => 0
  | ReloadIgnoringCache w :: r =>
      (if Nat.eqb w bw then 1 else 0) + reloads_of bw r
  | _ :: r => reloads_of bw r
  end.

Definition is_hard_change (e : event) : bool :=
  match e with
  | Change HardSub _ => true
  | _ => false
  end.

(** [options.forceHardReset === true] *)
Definition escalated (options : Options) : bool :=
  strict_eq_true (read (forceHardReset options)).

(** ** Well-paired window notifications *)

(** Each created window carries a fresh handle, and each close notification
    is for a window that is open: [created] are the handles seen so far,
    [live] the open ones. *)
Fixpoint paired_from (created live : list BrowserWindow) (evs : list event)
  : bool :=
  match evs with
  | [] => true
  | BrowserWindowCreated bw :: r =>
      negb (existsb (Nat.eqb bw) created)
      && paired_from (created ++ [bw]) (live ++ [bw]) r
  | WindowClosed bw :: r =>
      existsb (Nat.eqb bw) live
      && paired_from created (remove Nat.eq_dec bw live) r
  | Change _ _ :: r => paired_from created live r
  end.

Definition paired (evs : list event) : bool := paired_from [] [] evs.

(** [bw] was created in [evs] and no close notification followed. *)
Definition created_not_closed (evs : list event) (bw : BrowserWindow) : Prop :=
  exists pre post,
    evs = pre ++ BrowserWindowCreated bw :: post
    /\ ~ In (WindowClosed bw) post.

(** ** States of the two subscriptions *)

(** The soft-reset subscription is open and bound to the soft-reset
    handler. *)
Definition soft_open (rt : Runtime) : Prop :=
  closed (watcher rt) = false
  /\ listeners (watcher rt) = [(false, SoftResetHandler)].

Definition soft_shut (rt : Runtime) : Prop :=
  closed (watcher rt) = true.

(** The hard-reset subscription is open and its one-shot listener has not
    run yet. *)
Definition hard_armed (rt : Runtime) (e : string) (m : prop string)
    (a : prop (list string)) : Prop :=
  exists hw,
    hardWatcher rt = Some hw /\ closed hw = false
    /\ listeners hw = [(true, HardResetHandler e m a)].

(** There is no hard-reset subscription, or it has no listener left. *)
Definition hard_idle (rt : Runtime) : Prop :=
  match hardWatcher rt with
  | None => True
  | Some hw => listeners hw = []
  end.

Definition no_hard_change (evs : list event) : bool :=
  forallb (fun e => negb (is_hard_change e)) evs.

Definition soft_ok (rt : Runtime) : Prop := soft_open rt \/ soft_shut rt.

Definition hard_ok (rt : Runtime) : Prop :=
  hard_idle rt \/ exists x m a, hard_armed rt x m a.

(** [options] with its [forceHardReset] key replaced. *)
Definition with_forceHardReset (f : prop bool) (options : Options) : Options :=
  {| ignored := ignored options;
     hardResetMethod := hardResetMethod options;
     argv := argv options;
     forceHardReset := f;
     electron := electron options;
     mainFile := mainFile options |}.

(** ** Two readings of the specification, to be compared with the code *)

(** The soft-reset subscription ignores the entry file and the default
    pattern. *)
Definition soft_ignores_defaults (existsSync : string -> bool)
    (module_parent : option NodeModule) (glob : Glob) (options : Options)
  : Prop :=
  let w := watcher (result (electron_reload existsSync module_parent glob
                              options)) in
  In (MString (resolve_mainFile module_parent options)) (ignore_set w)
  /\ In ignoredPaths (ignore_set w).

(** Escalation is in force: the soft-reset subscription is closed and the
    hard-reset subscription watches the glob patterns. *)
Definition escalation_in_force (existsSync : string -> bool)
    (module_parent : option NodeModule) (glob : Glob) (options : Options)
  : Prop :=
  let rt := result (electron_reload existsSync module_parent glob options) in
  closed (watcher rt) = true
  /\ exists hw, hardWatcher rt = Some hw /\ watched hw = arrify glob.

(** ** A sample installation *)

Module Sample.

Definition appPath : string := "/app".

(** A file system on which only this Electron binary exists. *)
Definition existsSync (path : string) : bool :=
  String.eqb path "/usr/bin/electron".

Definition module_parent : option NodeModule :=
  Some {| filename := "/app/main.js" |}.

Definition glob : Glob := GlobOne "src/**".

(** [{ electron: '/usr/bin/electron', hardResetMethod: 'exit',
       argv: ['--inspect'] }] *)
Definition with_electron : Options :=
  {| ignored := Absent; hardResetMethod := Value "exit";
     argv := Value ["--inspect"]; forceHardReset := Absent;
     electron := Value "/usr/bin/electron"; mainFile := Absent |}.

(** [{ electron: '/usr/bin/electron', forceHardReset: true }] *)
Definition escalated_eligible : Options :=
  {| ignored := Absent; hardResetMethod := Absent; argv := Absent;
     forceHardReset := Value true;
     electron := Value "/usr/bin/electron"; mainFile := Absent |}.

(** [{ electron: '/opt/missing/electron', forceHardReset: true }] *)
Definition escalated_ineligible : Options :=
  {| ignored := Absent; hardResetMethod := Absent; argv := Absent;
     forceHardReset := Value true;
     electron := Value "/opt/missing/electron"; mainFile := Absent |}.

(** [{ ignored: ['dist'], mainFile: 'main.js' }] *)
Definition own_ignored : Options :=
  {| ignored := Value [MString "dist"]; hardResetMethod := Absent;
     argv := Absent; forceHardReset := Absent; electron := Absent;
     mainFile := Value "main.js" |}.


(** Two windows open, a source file changes, the first window closes and
    a third one opens. *)
Definition window_events : list event :=
  [ BrowserWindowCreated 1; BrowserWindowCreated 2;
    Change SoftSub "src/a.js"; WindowClosed 1; BrowserWindowCreated 3 ].

(** The first window reports ['closed'] twice while the second is open. *)
Definition closed_twice : list event :=
  [ BrowserWindowCreated 1; BrowserWindowCreated 2;
    WindowClosed 1; WindowClosed 1 ].

End Sample.

(** ** Further observations on events and traces *)

(** The windows of the creation notifications of [evs], in order. *)
Fixpoint created_windows (evs : list event) : list BrowserWindow :=
  match evs with
  | [] => []
  | BrowserWindowCreated bw :: r => bw :: created_windows r
  | _ :: r => created_windows r
  end.

Definition is_window_closed (e : event) : bool :=
  match e with
  | WindowClosed _ => true
  | _ => false
  end.

Definition is_log (c : call) : bool :=
  match c with
  | ConsoleLog _ => true
  | _ => false
  end.

Module MoreSamples.

(** [{ electron: '/usr/bin/electron' }] *)
Definition plain_electron : Options :=
  {| ignored := Absent; hardResetMethod := Absent; argv := Absent;
     forceHardReset := Absent;
     electron := Value "/usr/bin/electron"; mainFile := Absent |}.

(** Two windows open and sources change; nothing closes. *)
Definition opening_events : list event :=
  [ BrowserWindowCreated 4; Change SoftSub "src/a.js";
    BrowserWindowCreated 7; Change HardSub "/app/main.js" ].

End MoreSamples.


(** ** Path rules of an ignore set *)






(** ** Two more readings of the specification *)



(** ** The IO monad *)

Lemma calls_bind {A B : Type} (m : IO A) (k : A -> IO B) :
  calls (bind m k) = calls m ++ calls (k (result m)).
Proof.
  unfold bind, calls, result. destruct m as [a t1]; simpl.
  destruct (k a); reflexivity.
Qed.

Lemma result_bind {A B : Type} (m : IO A) (k : A -> IO B) :
  result (bind m k) = result (k (result m)).
Proof.
  unfold bind, result. destruct m as [a t1]; simpl.
  destruct (k a); reflexivity.
Qed.

Lemma calls_ret {A : Type} (a : A) : calls (ret a) = [].
Proof. reflexivity. Qed.

Lemma result_ret {A : Type} (a : A) : result (ret a) = a.
Proof. reflexivity. Qed.

Lemma forEach_calls {A : Type} (f : A -> IO unit) (l : list A) :
  calls (forEach l f) = flat_map (fun a => calls (f a)) l.
Proof.
  induction l as [|a r IH]; simpl.
  - reflexivity.
  - rewrite calls_bind, IH. reflexivity.
Qed.

Create Rewrite HintDb io.
#[local] Hint Rewrite @calls_bind @result_bind @calls_ret @result_ret
  @forEach_calls : io.

Ltac io := autorewrite with io in *; simpl in *.

(** ** Arrays: [indexOf] and [splice] *)

Lemma indexOf_bounds (l : list nat) (x : nat) :
  (-1 <= indexOf l x < Z.of_nat (List.length l))%Z.
Proof.
  induction l as [|y r IH]; simpl; [lia|].
  destruct (Nat.eqb y x); [lia|].
  destruct (indexOf r x <? 0)%Z eqn:E; [lia|].
  apply Z.ltb_ge in E. lia.
Qed.

Lemma indexOf_absent (l : list nat) (x : nat) :
  ~ In x l -> indexOf l x = (-1)%Z.
Proof.
  induction l as [|y r IH]; simpl; intros H; [reflexivity|].
  destruct (Nat.eqb_spec y x) as [->|N]; [tauto|].
  rewrite IH by tauto. reflexivity.
Qed.

Lemma indexOf_first (l1 l2 : list nat) (x : nat) :
  ~ In x l1 -> indexOf (l1 ++ x :: l2) x = Z.of_nat (List.length l1).
Proof.
  induction l1 as [|y r IH]; simpl; intros H.
  - rewrite Nat.eqb_refl. reflexivity.
  - destruct (Nat.eqb_spec y x) as [->|N]; [tauto|].
    rewrite IH by tauto.
    destruct (Z.of_nat (List.length r) <? 0)%Z eqn:E;
      [apply Z.ltb_lt in E; lia | lia].
Qed.

Lemma indexOf_present (l : list nat) (x : nat) :
  In x l -> (0 <= indexOf l x)%Z.
Proof.
  intros H. apply in_split in H. destruct H as (l1 & l2 & ->).
  revert l2. induction l1 as [|y r IH]; simpl; intros l2.
  - rewrite Nat.eqb_refl. lia.
  - destruct (Nat.eqb y x); [lia|].
    specialize (IH l2).
    destruct (indexOf (r ++ x :: l2) x <? 0)%Z eqn:E;
      [apply Z.ltb_lt in E; lia | lia].
Qed.

Lemma splice_one_at {A : Type} (l1 l2 : list A) (a : A) :
  splice (l1 ++ a :: l2) (Z.of_nat (List.length l1)) 1 = l1 ++ l2.
Proof.
  unfold splice. rewrite length_app; simpl.
  set (n := List.length l1). set (m := List.length l2).
  replace (Z.of_nat n <? 0)%Z with false by (symmetry; apply Z.ltb_ge; lia).
  replace (Z.min (Z.of_nat n) (Z.of_nat (n + S m))) with (Z.of_nat n) by lia.
  replace (Z.min (Z.max 1 0) (Z.of_nat (n + S m) - Z.of_nat n)) with 1%Z by lia.
  rewrite Nat2Z.id.
  replace (Z.to_nat (Z.of_nat n + 1)) with (S n) by lia.
  subst n. f_equal.
  - rewrite firstn_app, Nat.sub_diag, firstn_all. simpl. apply app_nil_r.
  - rewrite skipn_app, skipn_all2 by lia.
    replace (S (List.length l1) - List.length l1) with 1 by lia.
    reflexivity.
Qed.

(** [splice(-1, 1)] takes the last element away. *)
Lemma splice_minus_one {A : Type} (l : list A) :
  splice l (-1) 1 = removelast l.
Proof.
  induction l as [|a l' _] using rev_ind.
  - reflexivity.
  - rewrite removelast_last.
    rewrite <- (app_nil_r l') at 2.
    rewrite <- (splice_one_at l' [] a).
    unfold splice. rewrite length_app; simpl.
    replace (Z.max (Z.of_nat (List.length l' + 1) + -1) 0)
      with (Z.of_nat (List.length l')) by lia.
    replace (Z.of_nat (List.length l') <? 0)%Z with false
      by (symmetry; apply Z.ltb_ge; lia).
    replace (Z.min (Z.of_nat (List.length l')) (Z.of_nat (List.length l' + 1)))
      with (Z.of_nat (List.length l')) by lia.
    reflexivity.
Qed.

(** ** The ['closed'] listener *)

Lemma on_closed_first (l1 l2 : list BrowserWindow) (bw : BrowserWindow) :
  ~ In bw l1 -> on_closed bw (l1 ++ bw :: l2) = l1 ++ l2.
Proof.
  intros H. unfold on_closed.
  rewrite indexOf_first by exact H. apply splice_one_at.
Qed.

Lemma on_closed_absent (l : list BrowserWindow) (bw : BrowserWindow) :
  ~ In bw l -> on_closed bw l = removelast l.
Proof.
  intros H. unfold on_closed.
  rewrite indexOf_absent by exact H. apply splice_minus_one.
Qed.

Lemma remove_only_occurrence (l1 l2 : list BrowserWindow) (bw : BrowserWindow) :
  NoDup (l1 ++ bw :: l2) -> remove Nat.eq_dec bw (l1 ++ bw :: l2) = l1 ++ l2.
Proof.
  intros H. apply NoDup_remove_2 in H.
  rewrite remove_app; simpl.
  destruct (Nat.eq_dec bw bw) as [_|N]; [|congruence].
  rewrite !notin_remove; [reflexivity| |];
    intros I; apply H, in_or_app; tauto.
Qed.

Lemma on_closed_nodup (l : list BrowserWindow) (bw : BrowserWindow) :
  NoDup l -> In bw l -> on_closed bw l = remove Nat.eq_dec bw l.
Proof.
  intros N I. apply in_split in I. destruct I as (l1 & l2 & ->).
  rewrite remove_only_occurrence by exact N.
  apply on_closed_first.
  apply NoDup_remove_2 in N. intros I; apply N, in_or_app; tauto.
Qed.

(** ** Window notifications *)

Lemma created_not_closed_cons (e : event) (evs : list event)
    (bw : BrowserWindow) :
  created_not_closed (e :: evs) bw <->
  (e = BrowserWindowCreated bw /\ ~ In (WindowClosed bw) evs)
  \/ created_not_closed evs bw.
Proof.
  unfold created_not_closed. split.
  - intros (pre & post & E & N). destruct pre as [|e' pre]; simpl in E.
    + inversion E; subst. left; tauto.
    + inversion E; subst. right. exists pre, post. tauto.
  - intros [[-> N]|(pre & post & -> & N)].
    + exists [], evs. tauto.
    + exists (e :: pre), post. tauto.
Qed.

Lemma existsb_eqb_In (x : nat) (l : list nat) :
  existsb (Nat.eqb x) l = true <-> In x l.
Proof.
  rewrite existsb_exists. split.
  - intros (y & I & E). apply Nat.eqb_eq in E. subst. exact I.
  - intros I. exists x. rewrite Nat.eqb_refl. tauto.
Qed.

Section Registry.

Variable appPath : string.

Lemma step_browserWindows (rt : Runtime) (e : event) :
  browserWindows (result (step appPath rt e)) =
  match e with
  | BrowserWindowCreated bw => browserWindows rt ++ [bw]
  | WindowClosed bw =>
      Nat.iter (count_occ Nat.eq_dec (closedListeners rt) bw)
        (on_closed bw) (browserWindows rt)
  | Change _ _ => browserWindows rt
  end.
Proof.
  destruct e as [bw|bw|[|] p]; simpl; try reflexivity.
  - destruct (watcher_emit (watcher rt)); io; reflexivity.
  - destruct (hardWatcher rt); [|reflexivity].
    destruct (watcher_emit f); io; reflexivity.
Qed.

Lemma step_closedListeners (rt : Runtime) (e : event) :
  closedListeners (result (step appPath rt e)) =
  match e with
  | BrowserWindowCreated bw => closedListeners rt ++ [bw]
  | _ => closedListeners rt
  end.
Proof.
  destruct e as [bw|bw|[|] p]; simpl; try reflexivity.
  - destruct (watcher_emit (watcher rt)); io; reflexivity.
  - destruct (hardWatcher rt); [|reflexivity].
    destruct (watcher_emit f); io; reflexivity.
Qed.

Lemma run_cons (rt : Runtime) (e : event) (evs : list event) :
  result (run appPath rt (e :: evs)) =
  result (run appPath (result (step appPath rt e)) evs).
Proof. simpl. rewrite result_bind. reflexivity. Qed.

Lemma run_registry (evs : list event) :
  forall rt : Runtime,
    NoDup (closedListeners rt) ->
    NoDup (browserWindows rt) ->
    incl (browserWindows rt) (closedListeners rt) ->
    paired_from (closedListeners rt) (browserWindows rt) evs = true ->
    NoDup (browserWindows (result (run appPath rt evs)))
    /\ forall bw,
        In bw (browserWindows (result (run appPath rt evs))) <->
        (In bw (browserWindows rt) /\ ~ In (WindowClosed bw) evs)
        \/ created_not_closed evs bw.
Proof.
  induction evs as [|e evs IH]; intros rt Ncl Nbw Incl P.
  - simpl. split; [exact Nbw|]. intros bw. split; [tauto|].
    intros [[I _]|(pre & post & E & _)]; [exact I|].
    destruct pre; discriminate E.
  - rewrite run_cons.
    pose proof (step_browserWindows rt e) as Ebw.
    pose proof (step_closedListeners rt e) as Ecl.
    set (rt1 := result (step appPath rt e)) in *. clearbody rt1.
    destruct e as [w|w|s p]; simpl in P.
    + apply andb_prop in P. destruct P as [Fresh P].
      apply negb_true_iff in Fresh.
      assert (Nw : ~ In w (closedListeners rt)).
      { intros I. apply existsb_eqb_In in I. congruence. }
      assert (Nw' : ~ In w (browserWindows rt)) by (intros I; auto).
      destruct (IH rt1) as [N1 M1].
      * rewrite Ecl.
        apply NoDup_app; [exact Ncl|repeat constructor; simpl; tauto|].
        intros x I [<-|[]]. tauto.
      * rewrite Ebw.
        apply NoDup_app; [exact Nbw|repeat constructor; simpl; tauto|].
        intros x I [<-|[]]. tauto.
      * rewrite Ebw, Ecl. intros x I. apply in_app_or in I.
        apply in_or_app. destruct I; auto.
      * rewrite Ebw, Ecl. exact P.
      * split; [exact N1|]. intros bw. rewrite M1, Ebw.
        rewrite created_not_closed_cons, in_app_iff. simpl.
        split.
        -- intros [[[I|[<-|[]]] C]|C].
           ++ left. split; [exact I|]. intros [D|D]; [discriminate D|tauto].
           ++ right. left. tauto.
           ++ right. right. exact C.
        -- intros [[I C]|[[E C]|C]].
           ++ left. tauto.
           ++ inversion E; subst. left. tauto.
           ++ tauto.
    + apply andb_prop in P. destruct P as [Live P].
      apply existsb_eqb_In in Live.
      assert (One : count_occ Nat.eq_dec (closedListeners rt) w = 1).
      { pose proof (proj1 (NoDup_count_occ Nat.eq_dec _) Ncl w).
        pose proof (proj1 (count_occ_In Nat.eq_dec _ w) (Incl w Live)).
        lia. }
      rewrite One in Ebw. simpl in Ebw.
      rewrite on_closed_nodup in Ebw by assumption.
      assert (Mem : forall bw, In bw (remove Nat.eq_dec w (browserWindows rt))
                               <-> In bw (browserWindows rt) /\ bw <> w).
      { intros bw. split.
        - intros I. apply in_remove in I. exact I.
        - intros [I D]. apply in_in_remove; assumption. }
      destruct (IH rt1) as [N1 M1].
      * rewrite Ecl. exact Ncl.
      * rewrite Ebw. apply in_split in Live. destruct Live as (l1 & l2 & E).
        rewrite E in *. rewrite remove_only_occurrence by exact Nbw.
        eapply NoDup_remove_1; exact Nbw.
      * rewrite Ebw, Ecl. intros x I. apply Mem in I. apply Incl; tauto.
      * rewrite Ebw, Ecl. exact P.
      * split; [exact N1|]. intros bw. rewrite M1, Ebw, Mem.
        rewrite created_not_closed_cons. simpl.
        split.
        -- intros [[[I D] C]|C]; [|tauto].
           left. split; [exact I|].
           intros [X|X]; [inversion X; congruence|tauto].
        -- intros [[I C]|[[E _]|C]]; [|discriminate E|tauto].
           left. split; [split; [exact I|]|tauto].
           intros ->. tauto.
    + destruct (IH rt1) as [N1 M1].
      * rewrite Ecl. exact Ncl.
      * rewrite Ebw. exact Nbw.
      * rewrite Ebw, Ecl. exact Incl.
      * rewrite Ebw, Ecl. exact P.
      * split; [exact N1|]. intros bw. rewrite M1, Ebw.
        rewrite created_not_closed_cons. simpl.
        split.
        -- intros [[I C]|C]; [|tauto].
           left. split; [exact I|]. intros [X|X]; [discriminate X|tauto].
        -- intros [[I C]|[[E _]|C]]; [|discriminate E|tauto].
           left. tauto.
Qed.

End Registry.

(** ** Subscriptions while events are processed *)

Lemma softResetHandler_calls (windows : list BrowserWindow) :
  calls (softResetHandler windows) = map ReloadIgnoringCache windows.
Proof.
  unfold softResetHandler. rewrite forEach_calls.
  induction windows as [|bw r IH]; [reflexivity|].
  cbn [flat_map map]. rewrite IH. reflexivity.
Qed.

Section Dispatch.

Variable appPath : string.

Ltac on_event e :=
  destruct e as [?bw|?bw|[|] ?p]; unfold step, watcher_emit.

Lemma step_window_calls (rt : Runtime) (e : event) :
  (forall s p, e <> Change s p) -> calls (step appPath rt e) = [].
Proof.
  intros H. destruct e as [bw|bw|s p]; try reflexivity.
  exfalso. exact (H s p eq_refl).
Qed.

Lemma step_soft_open (rt : Runtime) (e : event) :
  soft_open rt -> soft_open (result (step appPath rt e)).
Proof.
  intros [C L]. unfold soft_open. on_event e; try (simpl; tauto).
  - rewrite C, L. io. tauto.
  - destruct (hardWatcher rt) as [hw|]; [|simpl; tauto].
    destruct (closed hw); io; tauto.
Qed.

Lemma step_soft_shut (rt : Runtime) (e : event) :
  soft_shut rt -> soft_shut (result (step appPath rt e)).
Proof.
  unfold soft_shut. intros C. on_event e; try (simpl; tauto).
  - rewrite C. io. exact C.
  - destruct (hardWatcher rt) as [hw|]; [|simpl; tauto].
    destruct (closed hw); io; tauto.
Qed.

Lemma step_hard_idle (rt : Runtime) (e : event) :
  hard_idle rt -> hard_idle (result (step appPath rt e)).
Proof.
  unfold hard_idle. intros H. on_event e; try (simpl; tauto).
  - destruct (closed (watcher rt)); io; exact H.
  - destruct (hardWatcher rt) as [hw|] eqn:E; [|simpl; rewrite E; exact I].
    destruct (closed hw); io; rewrite ?H; auto.
Qed.

Lemma step_hard_armed (rt : Runtime) (e : event) x m a :
  is_hard_change e = false ->
  hard_armed rt x m a -> hard_armed (result (step appPath rt e)) x m a.
Proof.
  unfold hard_armed. intros N H. on_event e; try (simpl; tauto).
  - destruct (closed (watcher rt)); io; exact H.
  - discriminate N.
Qed.

(** A change on the open soft-reset subscription reloads every window
    of the array as it is at that moment. *)
Lemma soft_change_open (rt : Runtime) (p : string) :
  soft_open rt ->
  calls (step appPath rt (Change SoftSub p)) =
  map ReloadIgnoringCache (browserWindows rt).
Proof.
  intros [C L]. unfold step, watcher_emit. rewrite C, L. io.
  rewrite softResetHandler_calls, !app_nil_r. reflexivity.
Qed.

Lemma soft_change_shut (rt : Runtime) (p : string) :
  soft_shut rt -> calls (step appPath rt (Change SoftSub p)) = [].
Proof.
  unfold soft_shut. intros C. unfold step, watcher_emit. rewrite C.
  reflexivity.
Qed.

Lemma hard_change_idle (rt : Runtime) (p : string) :
  hard_idle rt -> calls (step appPath rt (Change HardSub p)) = [].
Proof.
  unfold hard_idle. intros H. unfold step, watcher_emit.
  destruct (hardWatcher rt) as [hw|]; [|reflexivity].
  destruct (closed hw); [reflexivity|]. rewrite H. reflexivity.
Qed.

(** The first change on the hard-reset subscription runs the hard-reset
    handler and uses the one-shot listener up. *)
Lemma hard_change_armed (rt : Runtime) (p : string) x m a :
  hard_armed rt x m a ->
  calls (step appPath rt (Change HardSub p)) =
    calls (createHardresetHandler appPath x m a)
  /\ hard_idle (result (step appPath rt (Change HardSub p))).
Proof.
  intros (hw & E & C & L). unfold step, watcher_emit, hard_idle.
  rewrite E, C, L. io. rewrite !app_nil_r. split; reflexivity.
Qed.

Lemma createHardresetHandler_calls (x : string) (m : prop string)
    (a : prop (list string)) :
  calls (createHardresetHandler appPath x m a) =
  let args := (read a ?? []) ++ [appPath] in
  let o := {| detached := true; stdio := stdio_inherit |} in
  [ Spawn x args o;
    Unref {| spawnfile := x; spawnargs := args; spawnopts := o |};
    if strict_eq_string (read m) "exit" then AppExit else AppQuit ].
Proof.
  unfold createHardresetHandler. io.
  destruct (strict_eq_string (read m) "exit"); reflexivity.
Qed.

Lemma run_calls_cons (rt : Runtime) (e : event) (evs : list event) :
  calls (run appPath rt (e :: evs)) =
  calls (step appPath rt e)
  ++ calls (run appPath (result (step appPath rt e)) evs).
Proof. simpl. rewrite calls_bind. reflexivity. Qed.

Lemma run_app (rt : Runtime) (pre post : list event) :
  result (run appPath rt (pre ++ post)) =
    result (run appPath (result (run appPath rt pre)) post)
  /\ calls (run appPath rt (pre ++ post)) =
    calls (run appPath rt pre)
    ++ calls (run appPath (result (run appPath rt pre)) post).
Proof.
  revert rt. induction pre as [|e pre IH]; intros rt.
  - split; reflexivity.
  - rewrite <- app_comm_cons, !run_cons, !run_calls_cons.
    destruct (IH (result (step appPath rt e))) as [-> ->].
    rewrite app_assoc. split; reflexivity.
Qed.

Lemma run_soft_open (rt : Runtime) (evs : list event) :
  soft_open rt -> soft_open (result (run appPath rt evs)).
Proof.
  revert rt. induction evs as [|e evs IH]; intros rt H; [exact H|].
  rewrite run_cons. apply IH, step_soft_open, H.
Qed.

Lemma run_hard_armed (rt : Runtime) (evs : list event) x m a :
  no_hard_change evs = true ->
  hard_armed rt x m a -> hard_armed (result (run appPath rt evs)) x m a.
Proof.
  revert rt. induction evs as [|e evs IH]; intros rt N H; [exact H|].
  simpl in N. apply andb_prop in N. destruct N as [N1 N2].
  apply negb_true_iff in N1.
  rewrite run_cons. apply IH; [exact N2|]. apply step_hard_armed; assumption.
Qed.

(** What a single step can call, by the state of the two subscriptions. *)
Lemma step_calls_soft (rt : Runtime) (e : event) :
  is_hard_change e = false ->
  soft_open rt \/ soft_shut rt ->
  respawn_free (calls (step appPath rt e)).
Proof.
  intros N S. destruct e as [bw|bw|[|] p]; try (constructor; fail).
  - destruct S as [S|S].
    + rewrite soft_change_open by exact S.
      apply Forall_forall. intros c I. apply in_map_iff in I.
      destruct I as (w & <- & _). reflexivity.
    + rewrite soft_change_shut by exact S. constructor.
  - discriminate N.
Qed.

Lemma step_calls_shut (rt : Runtime) (e : event) :
  is_hard_change e = false ->
  soft_shut rt -> calls (step appPath rt e) = [].
Proof.
  intros N S. destruct e as [bw|bw|[|] p]; try reflexivity.
  - apply soft_change_shut, S.
  - discriminate N.
Qed.

End Dispatch.

(** ** Whole runs *)

Lemma spawn_count_app (t1 t2 : list call) :
  spawn_count (t1 ++ t2) = spawn_count t1 + spawn_count t2.
Proof. unfold spawn_count. rewrite filter_app, length_app. reflexivity. Qed.

Lemma respawn_free_spawn_count (t : list call) :
  respawn_free t -> spawn_count t = 0.
Proof.
  unfold spawn_count. induction 1 as [|c t H _ IH]; [reflexivity|].
  simpl. destruct c; try discriminate H; exact IH.
Qed.

Lemma respawn_free_app (t1 t2 : list call) :
  respawn_free t1 -> respawn_free t2 -> respawn_free (t1 ++ t2).
Proof. intros H1 H2. apply Forall_app. split; assumption. Qed.

Section Runs.

Variable appPath : string.

Lemma step_soft_ok (rt : Runtime) (e : event) :
  soft_ok rt -> soft_ok (result (step appPath rt e)).
Proof.
  intros [H|H]; [left; apply step_soft_open|right; apply step_soft_shut];
    exact H.
Qed.

Lemma step_hard_ok (rt : Runtime) (e : event) :
  hard_ok rt -> hard_ok (result (step appPath rt e)).
Proof.
  intros [H|(x & m & a & H)].
  - left. apply step_hard_idle, H.
  - destruct (is_hard_change e) eqn:E.
    + left. destruct e as [bw|bw|[|] p]; try discriminate E.
      apply (hard_change_armed appPath rt p x m a H).
    + right. exists x, m, a. apply step_hard_armed; assumption.
Qed.

Lemma step_hard_change_idle (rt : Runtime) (p : string) :
  hard_ok rt -> hard_idle (result (step appPath rt (Change HardSub p))).
Proof.
  intros [H|(x & m & a & H)].
  - apply step_hard_idle, H.
  - apply (hard_change_armed appPath rt p x m a H).
Qed.

Lemma run_soft_ok (rt : Runtime) (evs : list event) :
  soft_ok rt -> soft_ok (result (run appPath rt evs)).
Proof.
  revert rt. induction evs as [|e evs IH]; intros rt H; [exact H|].
  rewrite run_cons. apply IH, step_soft_ok, H.
Qed.

Lemma run_hard_ok (rt : Runtime) (evs : list event) :
  hard_ok rt -> hard_ok (result (run appPath rt evs)).
Proof.
  revert rt. induction evs as [|e evs IH]; intros rt H; [exact H|].
  rewrite run_cons. apply IH, step_hard_ok, H.
Qed.

(** Without an armed hard-reset listener nothing respawns. *)
Lemma run_respawn_free (evs : list event) :
  forall rt, soft_ok rt -> hard_idle rt ->
             respawn_free (calls (run appPath rt evs)).
Proof.
  induction evs as [|e evs IH]; intros rt S H; [constructor|].
  rewrite run_calls_cons. apply respawn_free_app.
  - destruct (is_hard_change e) eqn:E.
    + destruct e as [bw|bw|[|] p]; try discriminate E.
      rewrite hard_change_idle by exact H. constructor.
    + apply step_calls_soft; assumption.
  - apply IH; [apply step_soft_ok, S|apply step_hard_idle, H].
Qed.

Lemma run_spawn_count (evs : list event) :
  forall rt, soft_ok rt -> hard_ok rt ->
             spawn_count (calls (run appPath rt evs)) <= 1.
Proof.
  induction evs as [|e evs IH]; intros rt S H; [cbv; lia|].
  rewrite run_calls_cons, spawn_count_app.
  destruct H as [H|(x & m & a & H)].
  - pose proof (run_respawn_free (e :: evs) rt S H) as F.
    rewrite run_calls_cons in F. apply respawn_free_spawn_count in F.
    rewrite spawn_count_app in F. lia.
  - destruct (is_hard_change e) eqn:E.
    + destruct e as [bw|bw|[|] p]; try discriminate E.
      destruct (hard_change_armed appPath rt p x m a H) as [C I].
      rewrite C, createHardresetHandler_calls.
      rewrite (respawn_free_spawn_count
                 (calls (run appPath _ evs))).
      * destruct (strict_eq_string (read m) "exit"); cbv; lia.
      * apply run_respawn_free; [apply step_soft_ok, S|exact I].
    + rewrite (respawn_free_spawn_count (calls (step appPath rt e)))
        by (apply step_calls_soft; assumption).
      apply IH; [apply step_soft_ok, S|].
      right. exists x, m, a. apply step_hard_armed; assumption.
Qed.

(** With the soft-reset subscription closed no window is ever reloaded. *)
Lemma run_reload_free (evs : list event) :
  forall rt, soft_shut rt -> hard_ok rt ->
             reload_free (calls (run appPath rt evs)).
Proof.
  induction evs as [|e evs IH]; intros rt S H; [constructor|].
  rewrite run_calls_cons. apply Forall_app. split.
  - destruct (is_hard_change e) eqn:E.
    + destruct e as [bw|bw|[|] p]; try discriminate E.
      destruct H as [H|(x & m & a & H)].
      * rewrite hard_change_idle by exact H. constructor.
      * destruct (hard_change_armed appPath rt p x m a H) as [-> _].
        rewrite createHardresetHandler_calls.
        destruct (strict_eq_string (read m) "exit");
          repeat constructor.
    + rewrite step_calls_shut by assumption. constructor.
  - apply IH; [apply step_soft_shut, S|apply step_hard_ok, H].
Qed.

(** Two runtimes with the same windows and ['closed'] listeners, both
    with an open soft-reset subscription and no hard-reset listener, make
    the same calls on every sequence of events. *)
Lemma run_soft_only_calls (evs : list event) :
  forall rt1 rt2,
    browserWindows rt1 = browserWindows rt2 ->
    closedListeners rt1 = closedListeners rt2 ->
    soft_open rt1 -> soft_open rt2 -> hard_idle rt1 -> hard_idle rt2 ->
    calls (run appPath rt1 evs) = calls (run appPath rt2 evs).
Proof.
  induction evs as [|e evs IH]; intros rt1 rt2 B C S1 S2 H1 H2;
    [reflexivity|].
  rewrite !run_calls_cons. f_equal.
  - destruct e as [bw|bw|[|] p]; try reflexivity.
    + rewrite !soft_change_open by assumption. congruence.
    + rewrite !hard_change_idle by assumption. reflexivity.
  - apply IH; auto using step_soft_open, step_hard_idle.
    + rewrite !step_browserWindows. rewrite B, C. reflexivity.
    + rewrite !step_closedListeners. rewrite C. reflexivity.
Qed.

End Runs.

(** ** Startup *)

Section Startup.

Variable existsSync : string -> bool.
Variable module_parent : option NodeModule.

Abbreviation startup := (electron_reload existsSync module_parent).
Abbreviation eligible := (hard_reset_eligible existsSync).
Abbreviation entry := (resolve_mainFile module_parent).

Lemma startup_registry (glob : Glob) (options : Options) :
  browserWindows (result (startup glob options)) = []
  /\ closedListeners (result (startup glob options)) = [].
Proof.
  unfold electron_reload.
  destruct (eligible options);
    [destruct (strict_eq_true (read (forceHardReset options)))|];
    split; reflexivity.
Qed.

Lemma startup_calls (glob : Glob) (options : Options) :
  calls (startup glob options) =
  if eligible options then [] else [ConsoleLog no_hard_reset_message].
Proof.
  unfold electron_reload.
  destruct (eligible options);
    [destruct (strict_eq_true (read (forceHardReset options)))|];
    reflexivity.
Qed.

Lemma startup_watcher (glob : Glob) (options : Options) :
  watcher (result (startup glob options)) =
  let w := watcher_on
             (chokidar_watch glob
                (Object_assign_ignored [ignoredPaths; MString (entry options)]
                   options))
             SoftResetHandler in
  if eligible options && escalated options then watcher_close w else w.
Proof.
  unfold electron_reload, escalated.
  destruct (eligible options);
    [destruct (strict_eq_true (read (forceHardReset options)))|];
    reflexivity.
Qed.

Lemma startup_hardWatcher (glob : Glob) (options : Options) :
  hardWatcher (result (startup glob options)) =
  if eligible options then
    let hw := chokidar_watch (GlobOne (entry options))
                (Object_assign_ignored [ignoredPaths] options) in
    Some (watcher_once
            (if escalated options then watcher_add hw glob else hw)
            (HardResetHandler (read (electron options) ?? "")
               (hardResetMethod options) (argv options)))
  else None.
Proof.
  unfold electron_reload, escalated.
  destruct (eligible options);
    [destruct (strict_eq_true (read (forceHardReset options)))|];
    reflexivity.
Qed.

Lemma startup_soft_ok (glob : Glob) (options : Options) :
  (eligible options && escalated options = true ->
   soft_shut (result (startup glob options)))
  /\ (eligible options && escalated options = false ->
      soft_open (result (startup glob options))).
Proof.
  unfold soft_shut, soft_open. rewrite startup_watcher. simpl.
  split; intros ->; simpl; auto.
Qed.

Lemma startup_hard_ok (glob : Glob) (options : Options) :
  (eligible options = true ->
   hard_armed (result (startup glob options))
     (read (electron options) ?? "") (hardResetMethod options)
     (argv options))
  /\ (eligible options = false ->
      hard_idle (result (startup glob options))).
Proof.
  unfold hard_armed, hard_idle. rewrite startup_hardWatcher. simpl.
  split; intros ->.
  - eexists. split; [reflexivity|].
    destruct (escalated options); split; reflexivity.
  - exact I.
Qed.

Lemma startup_ok (glob : Glob) (options : Options) :
  soft_ok (result (startup glob options))
  /\ hard_ok (result (startup glob options)).
Proof.
  split.
  - destruct (eligible options && escalated options) eqn:E.
    + right. apply startup_soft_ok, E.
    + left. apply startup_soft_ok, E.
  - destruct (eligible options) eqn:E.
    + right. do 3 eexists. apply startup_hard_ok, E.
    + left. apply startup_hard_ok, E.
Qed.

Lemma eligible_iff (options : Options) :
  eligible options = true <->
  exists path, electron options = Value path /\ existsSync path = true.
Proof.
  unfold hard_reset_eligible.
  destruct (electron options) as [| |path]; simpl.
  - split; [discriminate|]. intros (p & E & _). discriminate E.
  - split; [discriminate|]. intros (p & E & _). discriminate E.
  - split.
    + intros H. exists path. tauto.
    + intros (p & E & H). inversion E; subst. exact H.
Qed.

End Startup.

(** ** The default ignore pattern *)

Lemma ignoredPaths_test_node_modules (pre post : string) :
  ignoredPaths_test (pre ++ "node_modules" ++ post)%string = true.
Proof.
  induction pre as [|c pre IH].
  - simpl. destruct post; reflexivity.
  - change ((String c pre ++ "node_modules" ++ post)%string)
      with (String c (pre ++ "node_modules" ++ post)%string).
    cbn [ignoredPaths_test]. rewrite IH. apply orb_true_r.
Qed.

Lemma ignoredPaths_test_dot (pre post : string) (c : ascii) :
  is_separator c = true ->
  ignoredPaths_test (pre ++ String c ("." ++ post))%string = true.
Proof.
  intros S. induction pre as [|d pre IH].
  - cbn [String.append ignoredPaths_test]. rewrite S.
    replace (String.prefix "." (String "." post)) with true
      by (simpl; destruct post; reflexivity).
    rewrite orb_true_r. reflexivity.
  - change ((String d pre ++ String c ("." ++ post))%string)
      with (String d (pre ++ String c ("." ++ post))%string).
    cbn [ignoredPaths_test]. rewrite IH. apply orb_true_r.
Qed.

Lemma filter_respawn_free (t : list call) :
  respawn_free t -> filter is_respawn t = [].
Proof.
  induction 1 as [|c t H _ IH]; [reflexivity|].
  simpl. rewrite H. exact IH.
Qed.

Lemma reloads_of_map (bw : BrowserWindow) (windows : list BrowserWindow) :
  reloads_of bw (map ReloadIgnoringCache windows)
  = count_occ Nat.eq_dec windows bw.
Proof.
  induction windows as [|w r IH]; [reflexivity|].
  cbn [map reloads_of count_occ]. rewrite IH.
  destruct (Nat.eqb_spec w bw) as [->|N].
  - destruct (Nat.eq_dec bw bw); [reflexivity|congruence].
  - destruct (Nat.eq_dec w bw); [congruence|reflexivity].
Qed.

(** * Properties of the module *)

Section Properties.

Variable appPath : string.
Variable existsSync : string -> bool.
Variable module_parent : option NodeModule.

Abbreviation startup := (electron_reload existsSync module_parent).
Abbreviation eligible := (hard_reset_eligible existsSync).
Abbreviation entry := (resolve_mainFile module_parent).
Abbreviation session' := (session appPath existsSync module_parent).

Lemma session_result (glob : Glob) (options : Options) (evs : list event) :
  result (session' glob options evs)
  = result (run appPath (result (startup glob options)) evs).
Proof.
  exact (result_bind (startup glob options) (fun rt => run appPath rt evs)).
Qed.

Lemma session_calls (glob : Glob) (options : Options) (evs : list event) :
  calls (session' glob options evs)
  = calls (startup glob options)
    ++ calls (run appPath (result (startup glob options)) evs).
Proof.
  exact (calls_bind (startup glob options) (fun rt => run appPath rt evs)).
Qed.

Lemma session_app (glob : Glob) (options : Options) (pre post : list event) :
  calls (session' glob options (pre ++ post))
  = calls (session' glob options pre)
    ++ calls (run appPath (result (session' glob options pre)) post).
Proof.
  rewrite !session_calls, session_result.
  destruct (run_app appPath (result (startup glob options)) pre post)
    as [_ ->].
  apply app_assoc.
Qed.

Lemma session_ok (glob : Glob) (options : Options) (evs : list event) :
  soft_ok (result (session' glob options evs))
  /\ hard_ok (result (session' glob options evs)).
Proof.
  rewrite session_result.
  destruct (startup_ok existsSync module_parent glob options) as [S H].
  split; [apply run_soft_ok, S|apply run_hard_ok, H].
Qed.

Lemma startup_calls_respawn_free (glob : Glob) (options : Options) :
  respawn_free (calls (startup glob options)).
Proof.
  rewrite startup_calls.
  destruct (eligible options); repeat constructor.
Qed.

(** C1 (amended).  A configuration without an [ignored] key of its own gets
    the default ignore set on the soft-reset subscription: the
    [node_modules]/dot-path pattern followed by the resolved entry file,
    and nothing else.  A configuration that brings its own [ignored] key
    replaces that set by its own value.  The default pattern matches every
    path that contains [node_modules] and every path in which a slash or a
    backslash is followed by a dot. *)
Theorem soft_ignore_set_defaults_unless_overridden
    (glob : Glob) (options : Options) :
  let w := watcher (result (startup glob options)) in
  (ignored options = Absent ->
   ignore_set w = [ignoredPaths; MString (entry options)]
   /\ soft_ignores_defaults existsSync module_parent glob options)
  /\ (ignored options <> Absent ->
      ignore_set w = read (ignored options) ?? [])
  /\ (forall pre post : string,
         ignoredPaths_test (pre ++ "node_modules" ++ post)%string = true)
  /\ (forall (pre post : string) (c : ascii),
         is_separator c = true ->
         ignoredPaths_test (pre ++ String c ("." ++ post))%string = true).
Proof.
  assert (E : ignore_set (watcher (result (startup glob options)))
              = read (ignored (Object_assign_ignored
                                 [ignoredPaths; MString (entry options)]
                                 options)) ?? []).
  { rewrite startup_watcher. cbv zeta.
    destruct (eligible options && escalated options); reflexivity. }
  cbv zeta. repeat split.
  - rewrite E. simpl. rewrite H. reflexivity.
  - unfold soft_ignores_defaults. cbv zeta. rewrite E. simpl. rewrite H.
    simpl. tauto.
  - unfold soft_ignores_defaults. cbv zeta. rewrite E. simpl. rewrite H.
    simpl. tauto.
  - intros N. rewrite E. simpl.
    destruct (ignored options); [congruence|reflexivity|reflexivity].
  - apply ignoredPaths_test_node_modules.
  - apply ignoredPaths_test_dot.
Qed.

(** C2 (amended).  When escalation is requested and hard reset is
    eligible, the soft-reset subscription is closed, the hard-reset
    subscription is open on the entry file followed by all the glob
    patterns, no event ever reloads a window, and the first change on the
    hard-reset subscription runs the hard-reset handler. *)
Theorem escalation_when_eligible (glob : Glob) (options : Options) :
  escalated options = true ->
  eligible options = true ->
  let rt0 := result (startup glob options) in
  closed (watcher rt0) = true
  /\ (exists hw,
         hardWatcher rt0 = Some hw /\ closed hw = false
         /\ watched hw = entry options :: arrify glob)
  /\ (forall evs, reload_free (calls (session' glob options evs)))
  /\ (forall pre p,
         no_hard_change pre = true ->
         calls (step appPath (result (session' glob options pre))
                  (Change HardSub p))
         = calls (createHardresetHandler appPath
                    (read (electron options) ?? "")
                    (hardResetMethod options) (argv options))).
Proof.
  intros F E. cbv zeta.
  assert (S : soft_shut (result (startup glob options))).
  { apply startup_soft_ok. rewrite E, F. reflexivity. }
  pose proof (proj1 (startup_hard_ok existsSync module_parent glob options) E)
    as A.
  repeat split.
  - exact S.
  - rewrite startup_hardWatcher, E, F. cbv zeta.
    eexists. split; [reflexivity|]. split; reflexivity.
  - intros evs. rewrite session_calls, startup_calls, E. simpl.
    apply run_reload_free; [exact S|].
    right. do 3 eexists. exact A.
  - intros pre p N. rewrite session_result.
    apply hard_change_armed. apply run_hard_armed; assumption.
Qed.

(** C4.  However many events arrive, of whatever kind and in whatever
    order, the process spawns a successor at most once; and once a change
    has been delivered to the hard-reset subscription, the events after it
    add no call of the hard-reset handler to the trace. *)
Theorem hard_reset_at_most_once (glob : Glob) (options : Options) :
  (forall evs, spawn_count (calls (session' glob options evs)) <= 1)
  /\ (forall pre p post,
         filter is_respawn
           (calls (session' glob options (pre ++ Change HardSub p :: post)))
         = filter is_respawn
             (calls (session' glob options (pre ++ [Change HardSub p])))).
Proof.
  destruct (startup_ok existsSync module_parent glob options) as [S H].
  split.
  - intros evs. rewrite session_calls, spawn_count_app.
    rewrite (respawn_free_spawn_count _ (startup_calls_respawn_free _ _)).
    apply run_spawn_count; assumption.
  - intros pre p post.
    replace (pre ++ Change HardSub p :: post)
      with ((pre ++ [Change HardSub p]) ++ post)
      by (rewrite <- app_assoc; reflexivity).
    rewrite (session_app glob options (pre ++ [Change HardSub p]) post).
    rewrite filter_app, (filter_respawn_free (calls (run _ _ post))).
    + apply app_nil_r.
    + destruct (session_ok glob options pre) as [S1 H1].
      rewrite session_result in *.
      destruct (run_app appPath (result (startup glob options)) pre
                  [Change HardSub p]) as [-> _].
      rewrite run_cons. cbn [run]. rewrite result_ret.
      apply run_respawn_free.
      * apply step_soft_ok, S1.
      * apply step_hard_change_idle, H1.
Qed.

Lemma run_no_hardWatcher (evs : list event) :
  forall rt, hardWatcher rt = None ->
             hardWatcher (result (run appPath rt evs)) = None.
Proof.
  induction evs as [|e evs IH]; intros rt H; [exact H|].
  rewrite run_cons. apply IH.
  destruct e as [bw|bw|[|] p]; unfold step; try exact H.
  - destruct (watcher_emit (watcher rt)). io. exact H.
  - rewrite H. exact H.
Qed.

(** C5.  Hard reset is eligible exactly when [options.electron] is a
    string naming a path that exists at startup.  When it is not eligible,
    startup opens no hard-reset subscription and logs the diagnostic, and
    over every sequence of events no subscription appears and no call of the
    hard-reset handler (spawn, unref, exit, quit) is made. *)
Theorem hard_reset_eligibility (glob : Glob) (options : Options) :
  (eligible options = true <->
   exists path, electron options = Value path /\ existsSync path = true)
  /\ (eligible options = false ->
      hardWatcher (result (startup glob options)) = None
      /\ calls (startup glob options) = [ConsoleLog no_hard_reset_message]
      /\ forall evs,
          hardWatcher (result (session' glob options evs)) = None
          /\ respawn_free (calls (session' glob options evs))).
Proof.
  split; [apply eligible_iff|].
  intros E.
  assert (N : hardWatcher (result (startup glob options)) = None)
    by (rewrite startup_hardWatcher, E; reflexivity).
  split; [exact N|]. split; [rewrite startup_calls, E; reflexivity|].
  intros evs. split.
  - rewrite session_result. apply run_no_hardWatcher, N.
  - rewrite session_calls. apply respawn_free_app.
    + apply startup_calls_respawn_free.
    + apply run_respawn_free.
      * apply startup_ok.
      * apply startup_hard_ok, E.
Qed.

(** C6.  With an existing executable configured, the first change on the
    hard-reset subscription makes exactly three calls, in this order:
    spawn the executable, detached and with inherited stdio, on the
    caller's argv (or none) followed by the application path; unref the
    child; then [app.exit()] when [hardResetMethod] is the string [exit]
    and [app.quit()] in every other case. *)
Theorem hard_reset_spawns_then_terminates
    (glob : Glob) (options : Options) (path : string)
    (pre : list event) (p : string) :
  electron options = Value path ->
  existsSync path = true ->
  no_hard_change pre = true ->
  let args := (read (argv options) ?? []) ++ [appPath] in
  let o := {| detached := true; stdio := stdio_inherit |} in
  calls (step appPath (result (session' glob options pre)) (Change HardSub p))
  = [ Spawn path args o;
      Unref {| spawnfile := path; spawnargs := args; spawnopts := o |};
      if strict_eq_string (read (hardResetMethod options)) "exit"
      then AppExit else AppQuit ]
  /\ (strict_eq_string (read (hardResetMethod options)) "exit" = true
      <-> hardResetMethod options = Value "exit").
Proof.
  intros X E N. cbv zeta. split.
  - assert (El : eligible options = true)
      by (apply eligible_iff; exists path; tauto).
    pose proof (proj1 (startup_hard_ok existsSync module_parent glob options)
                  El) as A.
    rewrite X in A. simpl in A.
    rewrite session_result.
    destruct (hard_change_armed appPath
                (result (run appPath (result (startup glob options)) pre))
                p path (hardResetMethod options) (argv options)) as [-> _].
    + apply run_hard_armed; assumption.
    + apply createHardresetHandler_calls.
  - destruct (hardResetMethod options) as [| |m]; simpl.
    + split; discriminate.
    + split; discriminate.
    + rewrite String.eqb_eq. split; [intros ->; reflexivity|].
      intros H. inversion H. reflexivity.
Qed.

(** C7.  For every sequence of events in which each created window
    carries a fresh handle and each close notification is for a window that
    is open, the [browserWindows] array holds, without repetition, exactly
    the windows that were created and not closed since. *)
Theorem registry_tracks_open_windows
    (glob : Glob) (options : Options) (evs : list event) :
  paired evs = true ->
  let windows := browserWindows (result (session' glob options evs)) in
  NoDup windows
  /\ forall bw, In bw windows <-> created_not_closed evs bw.
Proof.
  intros P. cbv zeta. rewrite session_result.
  destruct (startup_registry existsSync module_parent glob options)
    as [B C].
  destruct (run_registry appPath evs (result (startup glob options)))
    as [N M].
  - rewrite C. constructor.
  - rewrite B. constructor.
  - rewrite B. intros x [].
  - rewrite B, C. exact P.
  - split; [exact N|]. intros bw. rewrite M, B. simpl. tauto.
Qed.

(** C8.  The soft-reset handler calls [reloadIgnoringCache] on the entries
    of the [browserWindows] array, one call per entry and in the order of
    the array: a window is reloaded as many times as it is registered
    (once, when registered once), a window outside the array is not
    reloaded, and an empty array gives no call. *)
Theorem broadcast_reload_once_per_entry (windows : list BrowserWindow) :
  calls (softResetHandler windows) = map ReloadIgnoringCache windows
  /\ (forall bw,
         reloads_of bw (calls (softResetHandler windows))
         = count_occ Nat.eq_dec windows bw)
  /\ (forall bw,
         NoDup windows -> In bw windows ->
         reloads_of bw (calls (softResetHandler windows)) = 1)
  /\ (forall bw,
         ~ In bw windows ->
         ~ In (ReloadIgnoringCache bw) (calls (softResetHandler windows)))
  /\ calls (softResetHandler []) = [].
Proof.
  rewrite softResetHandler_calls. repeat split.
  - intros bw. apply reloads_of_map.
  - intros bw N I. rewrite reloads_of_map.
    pose proof (proj1 (NoDup_count_occ Nat.eq_dec _) N bw).
    pose proof (proj1 (count_occ_In Nat.eq_dec _ bw) I). lia.
  - intros bw N I. apply in_map_iff in I.
    destruct I as (w & E & I). inversion E; subst. tauto.
Qed.


(** C10.  When escalation is requested but hard reset is not eligible,
    the soft-reset subscription stays open over every sequence of events,
    every change on it reloads the windows registered at that moment, and
    the calls made are those of the same configuration with any other value
    of [forceHardReset]. *)
Theorem escalation_ignored_when_ineligible
    (glob : Glob) (options : Options) (evs : list event) :
  escalated options = true ->
  eligible options = false ->
  let rt := result (session' glob options evs) in
  closed (watcher rt) = false
  /\ (forall p,
         calls (step appPath rt (Change SoftSub p))
         = map ReloadIgnoringCache (browserWindows rt))
  /\ (forall f,
         calls (session' glob (with_forceHardReset f options) evs)
         = calls (session' glob options evs)).
Proof.
  intros F E. cbv zeta.
  assert (S : forall o, eligible o = false ->
                        soft_open (result (startup glob o))).
  { intros o Eo. apply startup_soft_ok. rewrite Eo. reflexivity. }
  assert (O : soft_open (result (session' glob options evs))).
  { rewrite session_result. apply run_soft_open, S, E. }
  repeat split.
  - apply O.
  - intros p. apply soft_change_open, O.
  - intros f.
    assert (Ef : eligible (with_forceHardReset f options) = false)
      by exact E.
    rewrite !session_calls, !startup_calls, Ef, E. f_equal.
    destruct (startup_registry existsSync module_parent glob options)
      as [B C].
    destruct (startup_registry existsSync module_parent glob
                (with_forceHardReset f options)) as [B' C'].
    apply run_soft_only_calls; try congruence; auto;
      apply startup_hard_ok; assumption.
Qed.

End Properties.

(** * The properties on the sample installation *)

Module SampleRuns.

Import Sample.

(** C1, the claim as written fails: a configuration with its own [ignored]
    list gets that list as the ignore set of the soft-reset subscription,
    without the entry file and without the default pattern. *)
Lemma own_ignored_drops_entry_file :
  ~ soft_ignores_defaults existsSync module_parent glob own_ignored.
Proof.
  intros [H _]. vm_compute in H. destruct H as [H|[]]. discriminate H.
Qed.

Lemma soft_ignore_set_defaults_witness :
  ignore_set
    (watcher (result (electron_reload existsSync module_parent glob
                        with_electron)))
  = [ignoredPaths; MString "/app/main.js"]
  /\ ignore_set
       (watcher (result (electron_reload existsSync module_parent glob
                           own_ignored)))
     = [MString "dist"].
Proof.
  split.
  - apply (proj1 (soft_ignore_set_defaults_unless_overridden
                    existsSync module_parent glob with_electron)).
    reflexivity.
  - apply (proj1 (proj2 (soft_ignore_set_defaults_unless_overridden
                           existsSync module_parent glob own_ignored))).
    discriminate.
Defined.

(** C2, the claim as written fails twice: with escalation requested but an
    executable that does not exist, the soft-reset subscription stays open
    and there is no hard-reset subscription; with escalation in force, the
    hard-reset subscription watches the entry file besides the glob
    patterns. *)
Lemma escalation_claim_fails :
  (escalated escalated_ineligible = true
   /\ ~ escalation_in_force existsSync module_parent glob
        escalated_ineligible)
  /\ (escalated escalated_eligible = true
      /\ ~ escalation_in_force existsSync module_parent glob
           escalated_eligible).
Proof.
  split; (split; [reflexivity|]).
  - intros [H _]. vm_compute in H. discriminate H.
  - intros [_ (hw & E & W)]. vm_compute in E. inversion E; subst.
    vm_compute in W. discriminate W.
Qed.

Lemma escalation_when_eligible_witness :
  closed (watcher (result (electron_reload existsSync module_parent glob
                             escalated_eligible))) = true
  /\ (exists hw,
         hardWatcher (result (electron_reload existsSync module_parent glob
                                escalated_eligible)) = Some hw
         /\ closed hw = false
         /\ watched hw = ["/app/main.js"; "src/**"]).
Proof.
  pose proof (escalation_when_eligible appPath existsSync module_parent glob
                escalated_eligible eq_refl eq_refl) as H.
  split; [exact (proj1 H)|exact (proj1 (proj2 H))].
Defined.

(** What the ['closed'] listener does when it runs for a window that is
    not in the array, as it would if a window reported ['closed'] a second
    time: it removes the last window of the array. *)
Lemma stray_close_removes_last_window :
  on_closed 3 [1; 2] = [1]
  /\ browserWindows
       (result (session appPath existsSync module_parent glob no_options
                  closed_twice))
     = [].
Proof. split; vm_compute; reflexivity. Qed.

Lemma hard_reset_eligibility_witness :
  hardWatcher (result (electron_reload existsSync module_parent glob
                         escalated_ineligible)) = None
  /\ calls (electron_reload existsSync module_parent glob
              escalated_ineligible)
     = [ConsoleLog no_hard_reset_message]
  /\ respawn_free
       (calls (session appPath existsSync module_parent glob
                 escalated_ineligible
                 [Change HardSub "/app/main.js"; Change SoftSub "src/a.js"])).
Proof.
  pose proof (proj2 (hard_reset_eligibility appPath existsSync module_parent
                       glob escalated_ineligible) eq_refl) as H.
  split; [exact (proj1 H)|]. split; [exact (proj1 (proj2 H))|].
  exact (proj2 (proj2 (proj2 H) _)).
Defined.

Lemma hard_reset_spawns_then_terminates_witness :
  calls (step appPath
           (result (session appPath existsSync module_parent glob
                      with_electron window_events))
           (Change HardSub "/app/main.js"))
  = [ Spawn "/usr/bin/electron" ["--inspect"; "/app"]
        {| detached := true; stdio := stdio_inherit |};
      Unref {| spawnfile := "/usr/bin/electron";
               spawnargs := ["--inspect"; "/app"];
               spawnopts := {| detached := true; stdio := stdio_inherit |} |};
      AppExit ].
Proof.
  exact (proj1 (hard_reset_spawns_then_terminates appPath existsSync
                  module_parent glob with_electron "/usr/bin/electron"
                  window_events "/app/main.js" eq_refl eq_refl eq_refl)).
Defined.

Lemma registry_tracks_open_windows_witness :
  paired window_events = true
  /\ forall bw,
      In bw (browserWindows
               (result (session appPath existsSync module_parent glob
                          with_electron window_events)))
      <-> created_not_closed window_events bw.
Proof.
  split; [reflexivity|].
  exact (proj2 (registry_tracks_open_windows appPath existsSync module_parent
                  glob with_electron window_events eq_refl)).
Defined.



Lemma escalation_ignored_when_ineligible_witness :
  closed (watcher (result (session appPath existsSync module_parent glob
                             escalated_ineligible window_events))) = false
  /\ calls (step appPath
              (result (session appPath existsSync module_parent glob
                         escalated_ineligible window_events))
              (Change SoftSub "src/b.js"))
     = [ReloadIgnoringCache 2; ReloadIgnoringCache 3].
Proof.
  pose proof (escalation_ignored_when_ineligible appPath existsSync
                module_parent glob escalated_ineligible window_events
                eq_refl eq_refl) as H.
  split; [exact (proj1 H)|exact (proj1 (proj2 H) "src/b.js")].
Defined.

End SampleRuns.

(** * Further properties *)

(** ** The ['closed'] listener on any array *)

Lemma in_split_first (l : list BrowserWindow) (bw : BrowserWindow) :
  In bw l -> exists l1 l2, l = l1 ++ bw :: l2 /\ ~ In bw l1.
Proof.
  induction l as [|y r IH]; intros I; [destruct I|].
  destruct (Nat.eq_dec y bw) as [->|N].
  - exists [], r. simpl. tauto.
  - destruct I as [E|I]; [congruence|].
    destruct (IH I) as (l1 & l2 & -> & F).
    exists (y :: l1), l2. simpl. split; [reflexivity|]. tauto.
Qed.

Lemma on_closed_cases (l : list BrowserWindow) (bw : BrowserWindow) :
  (exists l1 l2,
      l = l1 ++ bw :: l2 /\ ~ In bw l1 /\ on_closed bw l = l1 ++ l2)
  \/ (~ In bw l /\ on_closed bw l = removelast l).
Proof.
  destruct (in_dec Nat.eq_dec bw l) as [I|N].
  - left. destruct (in_split_first l bw I) as (l1 & l2 & -> & F).
    exists l1, l2. split; [reflexivity|]. split; [exact F|].
    apply on_closed_first, F.
  - right. split; [exact N|]. apply on_closed_absent, N.
Qed.

Lemma removelast_incl {A : Type} (l : list A) (x : A) :
  In x (removelast l) -> In x l.
Proof.
  rewrite removelast_firstn_len. intros I.
  rewrite <- (firstn_skipn (pred (List.length l)) l).
  apply in_or_app. left. exact I.
Qed.

Lemma removelast_length {A : Type} (l : list A) :
  List.length (removelast l) = pred (List.length l).
Proof.
  rewrite removelast_firstn_len, length_firstn. lia.
Qed.

Lemma on_closed_incl (l : list BrowserWindow) (bw x : BrowserWindow) :
  In x (on_closed bw l) -> In x l.
Proof.
  destruct (on_closed_cases l bw) as [(l1 & l2 & -> & _ & ->)|[_ ->]].
  - intros I. apply in_app_or in I. apply in_or_app. simpl. tauto.
  - apply removelast_incl.
Qed.

Lemma on_closed_length (l : list BrowserWindow) (bw : BrowserWindow) :
  List.length (on_closed bw l) = pred (List.length l).
Proof.
  destruct (on_closed_cases l bw) as [(l1 & l2 & -> & _ & ->)|[_ ->]].
  - rewrite !length_app. simpl. lia.
  - apply removelast_length.
Qed.

Lemma iter_on_closed_incl (n : nat) (l : list BrowserWindow)
    (bw x : BrowserWindow) :
  In x (Nat.iter n (on_closed bw) l) -> In x l.
Proof.
  induction n as [|n IH]; simpl; [tauto|].
  intros I. apply IH. eapply on_closed_incl. exact I.
Qed.

Lemma iter_on_closed_length (n : nat) (l : list BrowserWindow)
    (bw : BrowserWindow) :
  List.length (Nat.iter n (on_closed bw) l) <= List.length l.
Proof.
  induction n as [|n IH]; simpl; [lia|].
  rewrite on_closed_length. lia.
Qed.

(** X1.  When the window of a ['closed'] notification is in the array, its
    listener removes the first entry identical to it and nothing else: the
    entries before and after it, later duplicates of the window included,
    keep their order. *)
Theorem closed_listener_removes_first_match
    (windows : list BrowserWindow) (bw : BrowserWindow) :
  In bw windows ->
  exists before after,
    windows = before ++ bw :: after
    /\ ~ In bw before
    /\ on_closed bw windows = before ++ after.
Proof.
  intros I.
  destruct (on_closed_cases windows bw) as [H|[N _]]; [exact H|tauto].
Qed.


(** ** The default ignore pattern, completely *)

Lemma prefix_app (s1 s2 : string) :
  String.prefix s1 s2 = true -> exists post, s2 = (s1 ++ post)%string.
Proof.
  revert s2. induction s1 as [|c s1 IH]; intros s2 H.
  - exists s2. reflexivity.
  - destruct s2 as [|d s2]; [discriminate H|]. simpl in H.
    destruct (Ascii.ascii_dec c d) as [->|N]; [|discriminate H].
    destruct (IH s2 H) as (post & ->). exists post. reflexivity.
Qed.

(** X3.  The default ignore pattern matches a path exactly when the path
    contains [node_modules], or contains a slash or a backslash directly
    followed by a dot.  A dot at the very start of a path, with no
    separator before it, does not count: the path matches when what
    follows that dot does. *)
Theorem ignoredPaths_test_iff (path : string) :
  (ignoredPaths_test path = true <->
   (exists pre post, path = (pre ++ "node_modules" ++ post)%string)
   \/ (exists pre c post,
          is_separator c = true
          /\ path = (pre ++ String c ("." ++ post))%string))
  /\ ignoredPaths_test ("." ++ path)%string = ignoredPaths_test path.
Proof.
  split; [|reflexivity].
  split.
  - induction path as [|c rest IH]; [discriminate|].
    cbn [ignoredPaths_test]. intros H.
    apply orb_prop in H. destruct H as [H|H];
      [apply orb_prop in H; destruct H as [H|H]|].
    + left. apply prefix_app in H. destruct H as (post & ->).
      exists "", post. reflexivity.
    + right. apply andb_prop in H. destruct H as [S D].
      apply prefix_app in D. destruct D as (post & ->).
      exists "", c, post. split; [exact S|reflexivity].
    + destruct (IH H) as [(pre & post & ->)|(pre & d & post & S & ->)].
      * left. exists (String c pre), post. reflexivity.
      * right. exists (String c pre), d, post. split; [exact S|reflexivity].
  - intros [(pre & post & ->)|(pre & c & post & S & ->)].
    + apply ignoredPaths_test_node_modules.
    + apply ignoredPaths_test_dot, S.
Qed.

(** ** Events, windows and calls over whole sessions *)

Lemma created_windows_In (evs : list event) (bw : BrowserWindow) :
  In bw (created_windows evs) <-> In (BrowserWindowCreated bw) evs.
Proof.
  induction evs as [|e evs IH]; simpl; [tauto|].
  destruct e as [w|w|s p]; simpl; rewrite IH; split.
  - intros [->|I]; tauto.
  - intros [E|I]; [inversion E|]; tauto.
  - tauto.
  - intros [E|I]; [discriminate E|tauto].
  - tauto.
  - intros [E|I]; [discriminate E|tauto].
Qed.

Lemma handler_calls_respawn (appPath x : string) (m : prop string)
    (a : prop (list string)) :
  Forall (fun c => is_respawn c = true)
    (calls (createHardresetHandler appPath x m a)).
Proof.
  rewrite createHardresetHandler_calls. cbv zeta.
  destruct (strict_eq_string (read m) "exit"); repeat constructor.
Qed.

Lemma filter_all (f : call -> bool) (t : list call) :
  Forall (fun c => f c = true) t -> filter f t = t.
Proof.
  induction 1 as [|c t H _ IH]; [reflexivity|].
  simpl. rewrite H, IH. reflexivity.
Qed.

Lemma filter_none (f : call -> bool) (t : list call) :
  Forall (fun c => f c = false) t -> filter f t = [].
Proof.
  induction 1 as [|c t H _ IH]; [reflexivity|].
  simpl. rewrite H. exact IH.
Qed.

Section Sessions.

Variable appPath : string.

(** What one event can make the module call. *)
Lemma step_calls_shape (rt : Runtime) (e : event) :
  soft_ok rt -> hard_ok rt ->
  calls (step appPath rt e) = []
  \/ calls (step appPath rt e)
     = map ReloadIgnoringCache (browserWindows rt)
  \/ exists x m a,
      calls (step appPath rt e)
      = calls (createHardresetHandler appPath x m a).
Proof.
  intros S H. destruct e as [bw|bw|[|] p]; try (left; reflexivity).
  - destruct S as [S|S].
    + right. left. apply soft_change_open, S.
    + left. apply soft_change_shut, S.
  - destruct H as [H|(x & m & a & H)].
    + left. apply hard_change_idle, H.
    + right. right. exists x, m, a.
      apply (hard_change_armed appPath rt p x m a H).
Qed.

Lemma step_calls_reload (rt : Runtime) (e : event) (bw : BrowserWindow) :
  soft_ok rt -> hard_ok rt ->
  In (ReloadIgnoringCache bw) (calls (step appPath rt e)) ->
  In bw (browserWindows rt).
Proof.
  intros S H I.
  destruct (step_calls_shape rt e S H) as [E|[E|(x & m & a & E)]];
    rewrite E in I.
  - destruct I.
  - apply in_map_iff in I. destruct I as (w & X & I).
    inversion X; subst. exact I.
  - pose proof (handler_calls_respawn appPath x m a) as F.
    rewrite Forall_forall in F. specialize (F _ I). discriminate F.
Qed.

Lemma step_calls_no_log (rt : Runtime) (e : event) :
  soft_ok rt -> hard_ok rt ->
  Forall (fun c => is_log c = false) (calls (step appPath rt e)).
Proof.
  intros S H.
  destruct (step_calls_shape rt e S H) as [E|[E|(x & m & a & E)]];
    rewrite E.
  - constructor.
  - apply Forall_forall. intros c I. apply in_map_iff in I.
    destruct I as (w & <- & _). reflexivity.
  - rewrite createHardresetHandler_calls. cbv zeta.
    destruct (strict_eq_string (read m) "exit"); repeat constructor.
Qed.

Lemma step_browserWindows_incl (rt : Runtime) (e : event)
    (bw : BrowserWindow) :
  In bw (browserWindows (result (step appPath rt e))) ->
  In bw (browserWindows rt) \/ e = BrowserWindowCreated bw.
Proof.
  rewrite step_browserWindows. destruct e as [w|w|s p]; intros I.
  - apply in_app_or in I. destruct I as [I|[->|[]]]; tauto.
  - left. eapply iter_on_closed_incl. exact I.
  - left. exact I.
Qed.

Lemma run_browserWindows_incl (evs : list event) (bw : BrowserWindow) :
  forall rt,
    In bw (browserWindows (result (run appPath rt evs))) ->
    In bw (browserWindows rt) \/ In (BrowserWindowCreated bw) evs.
Proof.
  induction evs as [|e evs IH]; intros rt I; [left; exact I|].
  rewrite run_cons in I. destruct (IH _ I) as [J|J].
  - destruct (step_browserWindows_incl rt e bw J) as [K|K].
    + left. exact K.
    + right. left. exact K.
  - right. right. exact J.
Qed.

Lemma run_browserWindows_length (evs : list event) :
  forall rt,
    List.length (browserWindows (result (run appPath rt evs)))
    <= List.length (browserWindows rt) + List.length (created_windows evs).
Proof.
  induction evs as [|e evs IH]; intros rt; [simpl; lia|].
  rewrite run_cons. specialize (IH (result (step appPath rt e))).
  rewrite step_browserWindows in IH.
  destruct e as [w|w|s p]; cbn [created_windows List.length].
  - rewrite length_app in IH. cbn [List.length] in IH. lia.
  - pose proof (iter_on_closed_length
                  (count_occ Nat.eq_dec (closedListeners rt) w)
                  (browserWindows rt) w). lia.
  - exact IH.
Qed.

Lemma run_closedListeners (evs : list event) :
  forall rt,
    closedListeners (result (run appPath rt evs))
    = closedListeners rt ++ created_windows evs.
Proof.
  induction evs as [|e evs IH]; intros rt.
  - simpl. symmetry. apply app_nil_r.
  - rewrite run_cons, IH, step_closedListeners.
    destruct e as [w|w|s p]; simpl; [|reflexivity|reflexivity].
    rewrite <- app_assoc. reflexivity.
Qed.

(** Until a window closes the array only grows, at its end. *)
Lemma run_browserWindows_no_close (evs : list event) :
  forall rt,
    existsb is_window_closed evs = false ->
    browserWindows (result (run appPath rt evs))
    = browserWindows rt ++ created_windows evs.
Proof.
  induction evs as [|e evs IH]; intros rt N.
  - simpl. symmetry. apply app_nil_r.
  - simpl in N. apply orb_false_elim in N. destruct N as [N1 N2].
    rewrite run_cons, IH by exact N2. rewrite step_browserWindows.
    destruct e as [w|w|s p]; simpl; [|discriminate N1|reflexivity].
    rewrite <- app_assoc. reflexivity.
Qed.

Lemma run_calls_reload (evs : list event) (bw : BrowserWindow) :
  forall rt,
    soft_ok rt -> hard_ok rt ->
    In (ReloadIgnoringCache bw) (calls (run appPath rt evs)) ->
    In bw (browserWindows rt) \/ In (BrowserWindowCreated bw) evs.
Proof.
  induction evs as [|e evs IH]; intros rt S H I; [destruct I|].
  rewrite run_calls_cons in I. apply in_app_or in I. destruct I as [I|I].
  - left. eapply step_calls_reload; eassumption.
  - destruct (IH _ (step_soft_ok appPath rt e S)
                (step_hard_ok appPath rt e H) I) as [J|J].
    + destruct (step_browserWindows_incl rt e bw J) as [K|K].
      * left. exact K.
      * right. left. exact K.
    + right. right. exact J.
Qed.

Lemma run_calls_no_log (evs : list event) :
  forall rt,
    soft_ok rt -> hard_ok rt ->
    Forall (fun c => is_log c = false) (calls (run appPath rt evs)).
Proof.
  induction evs as [|e evs IH]; intros rt S H; [constructor|].
  rewrite run_calls_cons. apply Forall_app. split.
  - apply step_calls_no_log; assumption.
  - apply IH; [apply step_soft_ok, S|apply step_hard_ok, H].
Qed.

Lemma run_respawn_calls_armed (evs : list event) x m a :
  forall rt,
    soft_ok rt -> hard_armed rt x m a ->
    filter is_respawn (calls (run appPath rt evs))
    = if existsb is_hard_change evs
      then calls (createHardresetHandler appPath x m a)
      else [].
Proof.
  induction evs as [|e evs IH]; intros rt S H; [reflexivity|].
  rewrite run_calls_cons, filter_app. cbn [existsb].
  destruct (is_hard_change e) eqn:E.
  - destruct e as [bw|bw|[|] p]; try discriminate E.
    destruct (hard_change_armed appPath rt p x m a H) as [C I].
    rewrite C, (filter_all _ _ (handler_calls_respawn appPath x m a)).
    rewrite (filter_respawn_free (calls (run appPath _ evs))).
    + apply app_nil_r.
    + apply run_respawn_free; [apply step_soft_ok, S|exact I].
  - rewrite (filter_respawn_free (calls (step appPath rt e)))
      by (apply step_calls_soft; assumption).
    apply IH; [apply step_soft_ok, S|apply step_hard_armed; assumption].
Qed.

(** Events leave the patterns, the options and the open or closed state
    of both subscriptions alone. *)
Lemma step_watcher_static (rt : Runtime) (e : event) :
  closed (watcher (result (step appPath rt e))) = closed (watcher rt)
  /\ watched (watcher (result (step appPath rt e))) = watched (watcher rt)
  /\ woptions (watcher (result (step appPath rt e)))
     = woptions (watcher rt).
Proof.
  destruct e as [bw|bw|[|] p]; unfold step, watcher_emit;
    try (simpl; tauto).
  - destruct (closed (watcher rt)) eqn:C; io; rewrite ?C; tauto.
  - destruct (hardWatcher rt) as [hw|]; [|simpl; tauto].
    destruct (closed hw); io; tauto.
Qed.

Lemma run_watcher_static (evs : list event) :
  forall rt,
    closed (watcher (result (run appPath rt evs))) = closed (watcher rt)
    /\ watched (watcher (result (run appPath rt evs)))
       = watched (watcher rt)
    /\ woptions (watcher (result (run appPath rt evs)))
       = woptions (watcher rt).
Proof.
  induction evs as [|e evs IH]; intros rt; [tauto|].
  rewrite run_cons.
  destruct (IH (result (step appPath rt e))) as (-> & -> & ->).
  apply step_watcher_static.
Qed.

Lemma step_hardWatcher_static (rt : Runtime) (e : event) (hw : FSWatcher) :
  hardWatcher rt = Some hw ->
  exists hw',
    hardWatcher (result (step appPath rt e)) = Some hw'
    /\ closed hw' = closed hw /\ watched hw' = watched hw
    /\ woptions hw' = woptions hw.
Proof.
  intros E. destruct e as [bw|bw|[|] p]; unfold step, watcher_emit;
    try (exists hw; simpl; tauto).
  - exists hw. destruct (closed (watcher rt)); io; tauto.
  - rewrite E. destruct (closed hw) eqn:C; io.
    + exists hw. tauto.
    + eexists. split; [reflexivity|]. simpl. tauto.
Qed.

Lemma run_hardWatcher_static (evs : list event) :
  forall rt hw,
    hardWatcher rt = Some hw ->
    exists hw',
      hardWatcher (result (run appPath rt evs)) = Some hw'
      /\ closed hw' = closed hw /\ watched hw' = watched hw
      /\ woptions hw' = woptions hw.
Proof.
  induction evs as [|e evs IH]; intros rt hw E.
  - exists hw. tauto.
  - rewrite run_cons.
    destruct (step_hardWatcher_static rt e hw E) as (h1 & E1 & C1 & W1 & O1).
    destruct (IH _ h1 E1) as (h2 & E2 & C2 & W2 & O2).
    exists h2. split; [exact E2|]. repeat split; congruence.
Qed.

End Sessions.

Section MoreProperties.

Variable appPath : string.
Variable existsSync : string -> bool.
Variable module_parent : option NodeModule.

Abbreviation startup := (electron_reload existsSync module_parent).
Abbreviation eligible := (hard_reset_eligible existsSync).
Abbreviation entry := (resolve_mainFile module_parent).
Abbreviation session' := (session appPath existsSync module_parent).

(** X4.  Over any sequence of events the calls of the hard-reset handler
    in the trace are: nothing, when hard reset is not eligible or no change
    reached the hard-reset subscription; otherwise exactly one spawn of the
    configured executable (detached, inherited stdio, argv followed by the
    application path), one unref of that child and one [app.exit()] or
    [app.quit()], in this order. *)
Theorem respawn_calls_of_session
    (glob : Glob) (options : Options) (evs : list event) :
  filter is_respawn (calls (session' glob options evs))
  = if eligible options && existsb is_hard_change evs
    then
      let path := read (electron options) ?? "" in
      let args := (read (argv options) ?? []) ++ [appPath] in
      let o := {| detached := true; stdio := stdio_inherit |} in
      [ Spawn path args o;
        Unref {| spawnfile := path; spawnargs := args; spawnopts := o |};
        if strict_eq_string (read (hardResetMethod options)) "exit"
        then AppExit else AppQuit ]
    else [].
Proof.
  rewrite session_calls, filter_app.
  rewrite (filter_respawn_free _ (startup_calls_respawn_free _ _ _ _)).
  destruct (startup_ok existsSync module_parent glob options) as [S _].
  cbn [app]. destruct (eligible options) eqn:E; cbn [andb].
  - rewrite (run_respawn_calls_armed appPath evs
               (read (electron options) ?? "") (hardResetMethod options)
               (argv options)).
    + destruct (existsb is_hard_change evs); [|reflexivity].
      apply createHardresetHandler_calls.
    + exact S.
    + apply startup_hard_ok, E.
  - apply filter_respawn_free, run_respawn_free; [exact S|].
    apply startup_hard_ok, E.
Qed.

(** X5.  When [forceHardReset] is not [true], the soft-reset subscription
    stays open on the glob patterns over every sequence of events (changes
    on the hard-reset subscription included), and each change on it calls
    [reloadIgnoringCache] on the windows of the array at that moment and
    nothing else. *)
Theorem soft_reset_without_escalation
    (glob : Glob) (options : Options) (evs : list event) :
  escalated options = false ->
  let rt := result (session' glob options evs) in
  closed (watcher rt) = false
  /\ watched (watcher rt) = arrify glob
  /\ forall p,
      calls (step appPath rt (Change SoftSub p))
      = map ReloadIgnoringCache (browserWindows rt).
Proof.
  intros F. cbv zeta.
  assert (O : soft_open (result (session' glob options evs))).
  { rewrite session_result. apply run_soft_open, startup_soft_ok.
    rewrite F. apply andb_false_r. }
  split; [apply O|]. split.
  - rewrite session_result.
    destruct (run_watcher_static appPath evs
                (result (startup glob options))) as (_ & -> & _).
    rewrite startup_watcher, F, andb_false_r. reflexivity.
  - intros p. apply soft_change_open, O.
Qed.

(** X6.  When hard reset is eligible there is, over every sequence of
    events, an open hard-reset subscription; its patterns are the entry
    file alone, or the entry file followed by the glob patterns when
    [forceHardReset] is [true]; its ignore set is the default pattern
    alone (the entry file is not ignored there), unless the configuration
    has an [ignored] key, whose value it then is. *)
Theorem hard_subscription_setup
    (glob : Glob) (options : Options) (evs : list event) :
  eligible options = true ->
  exists hw,
    hardWatcher (result (session' glob options evs)) = Some hw
    /\ closed hw = false
    /\ watched hw
       = entry options :: (if escalated options then arrify glob else [])
    /\ ignore_set hw
       = match ignored options with
         | Absent => [ignoredPaths]
         | own => read own ?? []
         end.
Proof.
  intros E. rewrite session_result.
  pose proof (startup_hardWatcher existsSync module_parent glob options)
    as H0.
  rewrite E in H0. cbv zeta in H0.
  destruct (run_hardWatcher_static appPath evs _ _ H0)
    as (hw & H & C & W & O).
  exists hw. split; [exact H|]. unfold ignore_set.
  rewrite C, W, O. split; [|split].
  - destruct (escalated options); reflexivity.
  - destruct (escalated options); reflexivity.
  - destruct (escalated options); simpl;
      destruct (ignored options); reflexivity.
Qed.

(** X7.  Whatever the notifications and their order, a window in the
    array was the subject of a creation notification, and the array is no
    longer than the number of creation notifications. *)
Theorem registry_holds_only_created_windows
    (glob : Glob) (options : Options) (evs : list event) :
  (forall bw,
      In bw (browserWindows (result (session' glob options evs))) ->
      In (BrowserWindowCreated bw) evs)
  /\ List.length (browserWindows (result (session' glob options evs)))
     <= List.length (created_windows evs).
Proof.
  rewrite session_result.
  destruct (startup_registry existsSync module_parent glob options)
    as [B _].
  split.
  - intros bw I. apply run_browserWindows_incl in I.
    rewrite B in I. destruct I as [[]|I]. exact I.
  - pose proof (run_browserWindows_length appPath evs
                  (result (startup glob options))) as L.
    rewrite B in L. exact L.
Qed.

(** X8.  A ['closed'] notification for a window that no creation
    notification announced reaches no listener: the array, the
    subscriptions and the trace are as if it had not happened. *)
Theorem close_of_unknown_window_is_ignored
    (glob : Glob) (options : Options) (evs : list event)
    (bw : BrowserWindow) :
  ~ In (BrowserWindowCreated bw) evs ->
  result (session' glob options (evs ++ [WindowClosed bw]))
  = result (session' glob options evs)
  /\ calls (session' glob options (evs ++ [WindowClosed bw]))
     = calls (session' glob options evs).
Proof.
  intros N. split.
  - rewrite !session_result.
    destruct (run_app appPath (result (startup glob options)) evs
                [WindowClosed bw]) as [-> _].
    pose proof (run_closedListeners appPath evs
                  (result (startup glob options))) as L.
    destruct (startup_registry existsSync module_parent glob options)
      as [_ C].
    rewrite C in L. simpl in L.
    assert (Z : count_occ Nat.eq_dec (created_windows evs) bw = 0).
    { apply count_occ_not_In. rewrite created_windows_In. exact N. }
    rewrite <- L in Z.
    destruct (result (run appPath (result (startup glob options)) evs))
      as [ws cl w hw].
    simpl in Z. cbn. unfold emit_closed. cbn. rewrite Z. reflexivity.
  - rewrite session_app. cbn. apply app_nil_r.
Qed.

(** X9.  As long as no window has closed, the array is the sequence of
    the created windows in the order of their creation, a window announced
    twice being there twice. *)
Theorem windows_registered_in_creation_order
    (glob : Glob) (options : Options) (evs : list event) :
  existsb is_window_closed evs = false ->
  browserWindows (result (session' glob options evs))
  = created_windows evs.
Proof.
  intros N. rewrite session_result.
  rewrite run_browserWindows_no_close by exact N.
  destruct (startup_registry existsSync module_parent glob options)
    as [-> _].
  reflexivity.
Qed.

(** X10.  Over any sequence of events, a window that is asked to reload
    was the subject of a creation notification of that sequence. *)
Theorem reloads_only_created_windows
    (glob : Glob) (options : Options) (evs : list event)
    (bw : BrowserWindow) :
  In (ReloadIgnoringCache bw) (calls (session' glob options evs)) ->
  In (BrowserWindowCreated bw) evs.
Proof.
  rewrite session_calls, startup_calls. intros I.
  apply in_app_or in I. destruct I as [I|I].
  - destruct (eligible options); [destruct I|].
    destruct I as [D|[]]. discriminate D.
  - destruct (startup_ok existsSync module_parent glob options) as [S H].
    apply run_calls_reload in I; [|exact S|exact H].
    destruct (startup_registry existsSync module_parent glob options)
      as [B _].
    rewrite B in I. destruct I as [[]|I]. exact I.
Qed.

(** X11.  The diagnostic is the only thing the module ever logs: once, at
    startup, when hard reset is not eligible, and never otherwise,
    whatever events follow. *)
Theorem diagnostic_logged_once_iff_ineligible
    (glob : Glob) (options : Options) (evs : list event) :
  filter is_log (calls (session' glob options evs))
  = if eligible options then [] else [ConsoleLog no_hard_reset_message].
Proof.
  rewrite session_calls, filter_app, startup_calls.
  destruct (startup_ok existsSync module_parent glob options) as [S H].
  rewrite (filter_none is_log (calls (run appPath _ evs)))
    by (apply run_calls_no_log; assumption).
  destruct (eligible options); reflexivity.
Qed.

End MoreProperties.

Module MoreSampleRuns.

Import Sample MoreSamples.

Lemma closed_listener_removes_first_match_witness :
  exists before after,
    [5; 8; 5; 9] = before ++ 5 :: after
    /\ ~ In 5 before
    /\ on_closed 5 [5; 8; 5; 9] = before ++ after.
Proof.
  apply (closed_listener_removes_first_match [5; 8; 5; 9] 5).
  simpl. tauto.
Defined.

Lemma soft_reset_without_escalation_witness :
  closed (watcher (result (session appPath existsSync module_parent glob
                             plain_electron opening_events))) = false
  /\ calls (step appPath
              (result (session appPath existsSync module_parent glob
                         plain_electron opening_events))
              (Change SoftSub "src/b.js"))
     = [ReloadIgnoringCache 4; ReloadIgnoringCache 7].
Proof.
  pose proof (soft_reset_without_escalation appPath existsSync
                module_parent glob plain_electron opening_events eq_refl)
    as H.
  split; [exact (proj1 H)|exact (proj2 (proj2 H) "src/b.js")].
Defined.

Lemma hard_subscription_setup_witness :
  exists hw,
    hardWatcher (result (session appPath existsSync module_parent glob
                           plain_electron opening_events)) = Some hw
    /\ closed hw = false
    /\ watched hw = ["/app/main.js"]
    /\ ignore_set hw = [ignoredPaths].
Proof.
  exact (hard_subscription_setup appPath existsSync module_parent glob
           plain_electron opening_events eq_refl).
Defined.

Lemma close_of_unknown_window_is_ignored_witness :
  browserWindows
    (result (session appPath existsSync module_parent glob plain_electron
               (opening_events ++ [WindowClosed 9])))
  = [4; 7].
Proof.
  rewrite (proj1 (close_of_unknown_window_is_ignored appPath existsSync
                    module_parent glob plain_electron opening_events 9
                    ltac:(simpl; intuition discriminate))).
  reflexivity.
Defined.

Lemma windows_registered_in_creation_order_witness :
  browserWindows
    (result (session appPath existsSync module_parent glob plain_electron
               opening_events))
  = [4; 7].
Proof.
  exact (windows_registered_in_creation_order appPath existsSync
           module_parent glob plain_electron opening_events eq_refl).
Defined.

Lemma reloads_only_created_windows_witness :
  In (BrowserWindowCreated 4) opening_events.
Proof.
  apply (reloads_only_created_windows appPath existsSync module_parent glob
           plain_electron opening_events 4).
  simpl. tauto.
Defined.

End MoreSampleRuns.

(** * Close notifications in paired sequences *)

Section Pairing.

Variable appPath : string.
Variable existsSync : string -> bool.
Variable module_parent : option NodeModule.

Abbreviation startup := (electron_reload existsSync module_parent).
Abbreviation session' := (session appPath existsSync module_parent).






End Pairing.

Module PairedRuns.

Import Sample.



End PairedRuns.
